(** * lichess-metrics: game-record extraction and opening-frequency ranking

    A shallow embedding of [main.py]: the PGN tag parser
    [pgn_to_dataframe], the per-(mode, color) ranking loop of
    [get_most_favorite_openings], the percentage display and the
    openings part of [main], and the bar data computed by
    [visualize_most_favorite_openings].  The library calls the program
    rests on are modelled by what they compute: [str.split] and
    [str.strip], [pd.DataFrame], [value_counts] with the sort numpy runs
    for it, [round], and the shape of what [plt.subplots] returns.

    Text is a [string] whose characters stand for code points below 256.
    Python exceptions are values of [exn]; a computation that may raise
    returns a [result]. *)

From Stdlib Require Import List String Ascii Bool Arith Lia ZArith.
From Stdlib Require Import Sorting.Sorted Sorting.Permutation Floats.
From Stdlib Require FinFun.
Import ListNotations.
Local Open Scope string_scope.
Local Open Scope list_scope.

(** ** Exceptions *)

Inductive exn : Type :=
| ValueError
| KeyError
| IndexError
| TypeError.

Inductive result (A : Type) : Type :=
| Ok (a : A)
| Raise (e : exn).
Arguments Ok {A} a.
Arguments Raise {A} e.

Definition bind {A B : Type} (c : result A) (k : A -> result B) : result B :=
  match c with
  | Ok a => k a
  | Raise e => Raise e
  end.

Notation "x <- c ;; k" := (bind c (fun x => k))
  (at level 61, c at next level, right associativity).

(** ** Python string primitives *)

Module PyStr.

Definition chr (n : nat) : string := String (ascii_of_nat n) EmptyString.

(** The two characters that a string literal cannot hold directly. *)
Definition nl : string := chr 10.
Definition dq : string := chr 34.

(** [sub in s] *)
Fixpoint contains (sub s : string) : bool :=
  if prefix sub s then true
  else match s with
       | EmptyString => false
       | String _ s' => contains sub s'
       end.

(** [s.split(sep)] for a non-empty [sep]: leftmost, non-overlapping
    matches.  [skip] counts the characters of a matched separator still
    to be consumed, [cur] is the segment read so far.  Every separator in
    the program is a non-empty literal, so Python's [ValueError] for an
    empty separator is out of reach. *)
Fixpoint split_from (sep : string) (skip : nat) (cur s : string) : list string :=
  match s with
  | EmptyString => [cur]
  | String c s' =>
      match skip with
      | S k => split_from sep k cur s'
      | O =>
          if prefix sep s
          then cur :: split_from sep (String.length sep - 1) EmptyString s'
          else split_from sep O (cur ++ String c EmptyString) s'
      end
  end.

Definition split (sep s : string) : list string :=
  split_from sep 0 EmptyString s.

Fixpoint lstrip (p : ascii -> bool) (s : string) : string :=
  match s with
  | EmptyString => EmptyString
  | String c s' => if p c then lstrip p s' else s
  end.

Fixpoint rstrip (p : ascii -> bool) (s : string) : string :=
  match s with
  | EmptyString => EmptyString
  | String c s' =>
      match rstrip p s' with
      | EmptyString => if p c then EmptyString else String c EmptyString
      | r => String c r
      end
  end.

(** [str.isspace] on one code point below 256. *)
Definition isspace (c : ascii) : bool :=
  let n := nat_of_ascii c in
  (((9 <=? n) && (n <=? 13)) || ((28 <=? n) && (n <=? 32))
   || (n =? 133) || (n =? 160))%nat.

(** [s.strip()] *)
Definition strip (s : string) : string := rstrip isspace (lstrip isspace s).

Fixpoint mem (c : ascii) (chars : string) : bool :=
  match chars with
  | EmptyString => false
  | String d r => Ascii.eqb c d || mem c r
  end.

(** [s.strip(chars)] *)
Definition strip_chars (chars s : string) : string :=
  rstrip (fun c => mem c chars) (lstrip (fun c => mem c chars) s).

End PyStr.

(** ** Python dictionaries with string keys

    Insertion-ordered: assigning to a key that is present replaces its
    value in place, a new key goes to the end. *)

Module PyDict.

Definition t : Type := list (string * string).

Fixpoint get (k : string) (d : t) : option string :=
  match d with
  | [] => None
  | (k', v) :: r => if String.eqb k k' then Some v else get k r
  end.

Fixpoint set (k v : string) (d : t) : t :=
  match d with
  | [] => [(k, v)]
  | (k', v') :: r =>
      if String.eqb k k' then (k, v) :: r else (k', v') :: set k v r
  end.

Definition keys (d : t) : list string := map fst d.

End PyDict.

(** ** The record parser *)

(** One iteration of the inner loop of [pgn_to_dataframe]: the guard on
    both brackets, then the chain of splits whose result is unpacked into
    exactly two names. *)
Definition parse_line (game_info : PyDict.t) (line : string) : result PyDict.t :=
  if PyStr.contains "[" line && PyStr.contains "]" line then
    match nth_error (PyStr.split "[" line) 1 with
    | None => Raise IndexError
    | Some after =>
        match PyStr.split "]" after with
        | [] => Raise IndexError
        | inside :: _ =>
            match PyStr.split (" " ++ PyStr.dq) inside with
            | [key; value] =>
                Ok (PyDict.set (PyStr.strip key)
                               (PyStr.strip_chars (" " ++ PyStr.dq) value)
                               game_info)
            | _ => Raise ValueError
            end
        end
    end
  else Ok game_info.

(** [for line in lines: ...] *)
Fixpoint parse_lines (game_info : PyDict.t) (lines : list string) : result PyDict.t :=
  match lines with
  | [] => Ok game_info
  | line :: rest =>
      game_info' <- parse_line game_info line ;;
      parse_lines game_info' rest
  end.

Definition parse_game (game : string) : result PyDict.t :=
  parse_lines [] (PyStr.split PyStr.nl game).

(** [for game in game_lines: ... games_data.append(game_info)] *)
Fixpoint parse_games (game_lines : list string) : result (list PyDict.t) :=
  match game_lines with
  | [] => Ok []
  | game :: rest =>
      game_info <- parse_game game ;;
      games_data <- parse_games rest ;;
      Ok (game_info :: games_data)
  end.

(** The block separator: three newlines. *)
Definition block_sep : string := PyStr.nl ++ PyStr.nl ++ PyStr.nl.

(** [game_lines = pgn_file.split(sep); game_lines = game_lines[:-1]] *)
Definition game_blocks (pgn_file : string) : list string :=
  removelast (PyStr.split block_sep pgn_file).

(** ** Data frames built from a list of dictionaries *)

Module DataFrame.

Record t : Type := mk { columns : list string; rows : list PyDict.t }.

Definition add_column (cols : list string) (k : string) : list string :=
  if existsb (String.eqb k) cols then cols else cols ++ [k].

(** [pd.DataFrame(list_of_dicts)]: one row per dictionary, the columns
    are the keys in order of first appearance. *)
Definition of_records (data : list PyDict.t) : t :=
  mk (fold_left (fun cols d => fold_left add_column (PyDict.keys d) cols) data [])
     data.

(** [df.empty]: some axis has length zero. *)
Definition empty (df : t) : bool :=
  match columns df, rows df with
  | [], _ | _, [] => true
  | _, _ => false
  end.

(** [df[name]]: a missing column raises; a row without the key holds the
    missing value ([None]). *)
Definition col (name : string) (df : t) : result (list (option string)) :=
  if existsb (String.eqb name) (columns df)
  then Ok (map (PyDict.get name) (rows df))
  else Raise KeyError.

End DataFrame.

Definition pgn_to_dataframe (pgn_file : string) : result DataFrame.t :=
  games_data <- parse_games (game_blocks pgn_file) ;;
  Ok (DataFrame.of_records games_data).

(** ** numpy's argsort

    [value_counts] sorts the counts through [argsort] with the default
    kind, which for integers is the introsort [aquicksort] of numpy's
    [npysort/quicksort.cpp] with its [aheapsort]; the model follows the
    scalar code.  Every loop carries a bound on its steps, and the length
    of the array is always enough: the properties of [up], [down],
    [hoare], [sift] and [aquicksort_from] below are proved for the bounds
    the callers give. *)

Module Numpy.

(** An index to sort together with the value it points at: the element
    [*p] of [tosort] and [v[*p]]. *)
Definition entry : Type := (string * nat)%type.

(** What a read outside the array gives; no run reads there. *)
Definition blank : entry := (EmptyString, 0).

(** [a[i]] *)
Definition at_ (a : list entry) (i : nat) : entry := nth i a blank.

(** [a[i] = x] *)
Fixpoint put (i : nat) (x : entry) (a : list entry) : list entry :=
  match a, i with
  | [], _ => []
  | _ :: r, O => x :: r
  | y :: r, S i' => y :: put i' x r
  end.

(** [INTP_SWAP(a[i], a[j])] *)
Definition swap (i j : nat) (a : list entry) : list entry :=
  put i (at_ a j) (put j (at_ a i) a).

(** [Tag::less(v[*p], v[*q])] on integer counts. *)
Definition less (x y : entry) : bool := (snd x <? snd y)%nat.

(** The insertion sort of a short partition.  [before] is the sorted
    part, last entry first; [shift] carries [x] to the left past every
    entry greater than it. *)
Fixpoint shift (x : entry) (before : list entry) : list entry :=
  match before with
  | [] => [x]
  | y :: r => if less x y then y :: shift x r else x :: y :: r
  end.

Definition insertion (a : list entry) : list entry :=
  rev (fold_left (fun before x => shift x before) a []).

(** The median of the first, middle and last entry goes to the middle. *)
Definition median3 (pm pr : nat) (a : list entry) : list entry :=
  let a := if less (at_ a pm) (at_ a 0) then swap pm 0 a else a in
  let a := if less (at_ a pr) (at_ a pm) then swap pr pm a else a in
  if less (at_ a pm) (at_ a 0) then swap pm 0 a else a.

(** [do { ++pi; } while (less(v[*pi], vp));] *)
Fixpoint up (fuel : nat) (a : list entry) (vp : entry) (pi : nat) : nat :=
  match fuel with
  | O => pi
  | S f => if less (at_ a (S pi)) vp then up f a vp (S pi) else S pi
  end.

(** [do { --pj; } while (less(vp, v[*pj]));] *)
Fixpoint down (fuel : nat) (a : list entry) (vp : entry) (pj : nat) : nat :=
  match fuel with
  | O => pj
  | S f => if less vp (at_ a (pj - 1)) then down f a vp (pj - 1) else pj - 1
  end.

(** The scan loop: both pointers move, and the entries they stop at are
    exchanged until the pointers meet. *)
Fixpoint hoare (fuel : nat) (a : list entry) (vp : entry) (pi pj : nat)
  : list entry * nat :=
  match fuel with
  | O => (a, pi)
  | S f =>
      let pi := up (List.length a) a vp pi in
      let pj := down (List.length a) a vp pj in
      if (pj <=? pi)%nat then (a, pi) else hoare f (swap pi pj a) vp pi pj
  end.

(** One partition of [a] ([pl] is 0, [pr] the last index): the array
    after it and the place of the pivot. *)
Definition partition (a : list entry) : list entry * nat :=
  let pr := List.length a - 1 in
  let pm := Nat.div2 pr in
  let a := median3 pm pr a in
  let vp := at_ a pm in
  let a := swap pm (pr - 1) a in
  let '(a, pi) := hoare (List.length a) a vp 0 (pr - 1) in
  (swap pi (pr - 1) a, pi).

(** The inner loop of [aheapsort]: [tmp] sinks from the hole [i], whose
    first child is [j], within the heap [1..n]. *)
Fixpoint sift (fuel n : nat) (tmp : entry) (a : list entry) (i j : nat) : list entry :=
  match fuel with
  | O => put i tmp a
  | S f =>
      if (j <=? n)%nat then
        let j := if (j <? n)%nat && less (at_ a j) (at_ a (j + 1)) then j + 1 else j in
        if less tmp (at_ a j) then sift f n tmp (put i (at_ a j) a) j (j + j)
        else put i tmp a
      else put i tmp a
  end.

(** [for (l = n >> 1; l > 0; --l)] *)
Fixpoint build (l n : nat) (a : list entry) : list entry :=
  match l with
  | O => a
  | S l' => build l' n (sift n n (at_ a l) a l (l + l))
  end.

(** [for (; n > 1;)] *)
Fixpoint extract (n : nat) (a : list entry) : list entry :=
  match n with
  | O => a
  | S n' =>
      if (1 <? n)%nat
      then extract n' (sift n' n' (at_ a n) (put n (at_ a 1) a) 1 2)
      else a
  end.

(** [aheapsort]: the array is addressed from 1, so the model puts one
    entry in front of it. *)
Definition aheapsort (a : list entry) : list entry :=
  let n := List.length a in
  tl (extract n (build (Nat.div2 n) n (blank :: a))).

(** [SMALL_QUICKSORT] *)
Definition SMALL_QUICKSORT : nat := 15.

(** [aquicksort] on one partition.  [popped] says that the partition was
    taken from the stack (or is the whole array), which is where the depth
    is looked at; [cdepth] is the depth left.  After a partition the
    smaller part is sorted next and the larger one is pushed, both with
    the decremented depth.  The parts share no entry, so each is sorted
    as an array of its own. *)
Fixpoint aquicksort_from (fuel : nat) (popped : bool) (cdepth : Z) (a : list entry)
  : list entry :=
  match fuel with
  | O => a
  | S f =>
      if popped && (cdepth <? 0)%Z then aheapsort a
      else if (SMALL_QUICKSORT <? List.length a - 1)%nat then
        let '(a', pi) := partition a in
        let pr := List.length a - 1 in
        let d := (cdepth - 1)%Z in
        if (pi <? pr - pi)%nat
        then aquicksort_from f false d (firstn pi a')
             ++ at_ a' pi :: aquicksort_from f true d (skipn (S pi) a')
        else aquicksort_from f true d (firstn pi a')
             ++ at_ a' pi :: aquicksort_from f false d (skipn (S pi) a')
      else insertion a
  end.

(** [npy_get_msb(num) * 2] *)
Definition depth_limit (num : nat) : Z := (2 * Z.of_nat (Nat.log2 num))%Z.

Definition aquicksort (a : list entry) : list entry :=
  aquicksort_from (List.length a) true (depth_limit (List.length a)) a.

End Numpy.


(** ** Orders on entries *)

(** Counts from small to large, and from large to small. *)
Definition ascending (l : list Numpy.entry) : Prop :=
  StronglySorted (fun x y => snd x <= snd y) l.

Definition descending (l : list Numpy.entry) : Prop :=
  StronglySorted (fun x y => snd y <= snd x) l.

(** ** Heaps *)

(** [q] is a child of [p] in an array addressed from 1. *)
Definition child (q p : nat) : Prop := q = 2 * p \/ q = 2 * p + 1.

(** The entries [lo..n] form a heap: none of them is smaller than one of
    its children. *)
Definition heap (b : list Numpy.entry) (lo n : nat) : Prop :=
  forall p q, lo <= p -> child q p -> q <= n ->
              snd (Numpy.at_ b q) <= snd (Numpy.at_ b p).

(** ** Series of counts *)

Module Series.

(** A series of counts indexed by opening name. *)
Definition t : Type := list (string * nat).

(** One step of the hash-table count: a key already seen keeps its
    place and gains one, a new key is entered last. *)
Fixpoint bump (k : string) (acc : t) : t :=
  match acc with
  | [] => [(k, 1)]
  | (k', n) :: r =>
      if String.eqb k k' then (k', S n) :: r else (k', n) :: bump k r
  end.

Definition tally_step (acc : t) (x : option string) : t :=
  match x with
  | Some k => bump k acc
  | None => acc
  end.

(** Counts of the present values, keys in order of first occurrence;
    missing values are dropped ([dropna=True]). *)
Definition tally (col : list (option string)) : t :=
  fold_left tally_step col [].

(** [sort_values(ascending=False)] as [value_counts] applies it to the
    counts: pandas reverses the series, sorts it ascending with numpy's
    [argsort] and reverses the result. *)
Definition sort_values_desc (l : t) : t := rev (Numpy.aquicksort (rev l)).

(** [col.value_counts()] *)
Definition value_counts (col : list (option string)) : t :=
  sort_values_desc (tally col).

(** [s.head(n)] *)
Definition head (n : nat) (s : t) : t := firstn n s.

Definition index (s : t) : list string := map fst s.
Definition values (s : t) : list nat := map snd s.

End Series.

(** ** The ranked openings table *)

Record Row : Type := mkRow {
  game_mode : string;
  piece : string;
  opening : string;
  games_played : nat
}.

Fixpoint zip_rows (modes pieces openings : list string) (counts : list nat) : list Row :=
  match modes, pieces, openings, counts with
  | m :: ms, p :: ps, o :: os, c :: cs => mkRow m p o c :: zip_rows ms ps os cs
  | _, _, _, _ => []
  end.

(** [pd.DataFrame({...})] from four column lists: columns of different
    lengths raise [ValueError]. *)
Definition frame_of_columns (modes pieces openings : list string) (counts : list nat)
  : result (list Row) :=
  if (List.length modes =? List.length pieces)%nat
     && (List.length pieces =? List.length openings)%nat
     && (List.length openings =? List.length counts)%nat
  then Ok (zip_rows modes pieces openings counts)
  else Raise ValueError.

Definition top_n : nat := 5.

Definition piece_colors : list string := ["white"; "black"].

(** [top_openings = pgn_dataframe[col].value_counts().head(top_n)] *)
Definition top_openings (pgn_dataframe : DataFrame.t) : result Series.t :=
  opening_col <- DataFrame.col "Opening" pgn_dataframe ;;
  Ok (Series.head top_n (Series.value_counts opening_col)).

(** The frame of one (mode, color) group. *)
Definition openings_frame (mode color : string) (pgn_dataframe : DataFrame.t)
  : result (list Row) :=
  top <- top_openings pgn_dataframe ;;
  frame_of_columns (repeat mode top_n) (repeat color top_n)
                   (Series.index top) (Series.values top).

(** An HTTP response: status code and body. *)
Record response : Type := mkResponse { status_code : Z; text : string }.

Definition games_url (username color mode : string) : string :=
  "https://lichess.org/api/games/user/" ++ username
  ++ "?opening=true&color=" ++ color
  ++ "&perfType=" ++ mode ++ "&since=1672527600000".

(** What the loop carries: the table grown so far and the messages shown
    with [st.error]. *)
Record loop_state : Type := mkState {
  favorite_openings_df : list Row;
  st_errors : list string
}.

Definition failed_message (color mode : string) : string :=
  "Failed to retrieve data for openings as " ++ color ++ " in " ++ mode ++ " mode.".

Section Ranking.

(** [requests.get] *)
Variable requests_get : string -> response.
Variable username : string.

(** The body of the inner loop. *)
Definition group_step (mode color : string) (s : loop_state) : result loop_state :=
  let response := requests_get (games_url username color mode) in
  if (status_code response =? 200)%Z then
    pgn_dataframe <- pgn_to_dataframe (text response) ;;
    if negb (DataFrame.empty pgn_dataframe) then
      openings_df <- openings_frame mode color pgn_dataframe ;;
      Ok (mkState (favorite_openings_df s ++ openings_df) (st_errors s))
    else Ok s
  else
    Ok (mkState (favorite_openings_df s) (st_errors s ++ [failed_message color mode])).

Fixpoint for_colors (mode : string) (colors : list string) (s : loop_state)
  : result loop_state :=
  match colors with
  | [] => Ok s
  | color :: rest =>
      s' <- group_step mode color s ;;
      for_colors mode rest s'
  end.

Fixpoint for_modes (game_modes : list string) (s : loop_state) : result loop_state :=
  match game_modes with
  | [] => Ok s
  | mode :: rest =>
      s' <- for_colors mode piece_colors s ;;
      for_modes rest s'
  end.

Definition get_most_favorite_openings (game_modes : list string) : result loop_state :=
  for_modes game_modes (mkState [] []).

(** The same loop over an explicit list of (mode, color) pairs. *)
Fixpoint run_groups (pairs : list (string * string)) (s : loop_state)
  : result loop_state :=
  match pairs with
  | [] => Ok s
  | (mode, color) :: rest =>
      s' <- group_step mode color s ;;
      run_groups rest s'
  end.

End Ranking.

Definition mode_color_pairs (game_modes : list string) : list (string * string) :=
  flat_map (fun mode => map (pair mode) piece_colors) game_modes.

(** ** Percentages of the per-mode metrics *)

Module Metrics.

Local Open Scope float_scope.

(** [n / d] rounded to the nearest integer, ties to even ([0 <= n], [0 < d]). *)
Definition div_half_even (n d : Z) : Z :=
  let q := (n / d)%Z in
  let r := (n mod d)%Z in
  match (2 * r ?= d)%Z with
  | Lt => q
  | Gt => (q + 1)%Z
  | Eq => if Z.even q then q else (q + 1)%Z
  end.

(** The number of tenths nearest to [m * 2^e]. *)
Definition tenths (m : positive) (e : Z) : Z :=
  if (0 <=? e)%Z then (10 * Z.pos m * 2 ^ e)%Z
  else div_half_even (10 * Z.pos m) (2 ^ (- e)).

(** [round(x, 1)] on a float: the double nearest to the exact value of
    [x] rounded half-even to one decimal; zeros, infinities and NaN are
    returned as they are.  From [2^49] on doubles are at least an eighth
    apart and [x] is its own rounding; below, the tenths fit in 53 bits
    and the division by ten is correctly rounded. *)
Definition round1 (x : float) : float :=
  match Prim2SF x with
  | S754_finite s m e =>
      if 562949953421312 <=? abs x then x
      else
        let r := of_uint63 (Uint63.of_Z (tenths m e)) / 10 in
        if s then - r else r
  | _ => x
  end.

(** [n] tenths are nearest to the value [m * 2^e] of a double, and an
    even number of tenths when two are equally near. *)
Definition nearest_tenths (m : positive) (e n : Z) : Prop :=
  let scale := (2 ^ Z.max 0 (- e))%Z in
  let ten_x := (10 * Z.pos m * 2 ^ Z.max 0 e)%Z in
  (2 * Z.abs (ten_x - n * scale) <= scale)%Z
  /\ ((2 * Z.abs (ten_x - n * scale) = scale)%Z -> Z.even n = true).

(** [r] is the double [x] rounded to one decimal: below [2^49] the double
    nearest to the tenths nearest to the value of [x], with the sign of
    [x]; from [2^49] on, and for a zero, an infinity or NaN, [x] itself. *)
Inductive rounded_to_tenth (x : float) : float -> Prop :=
| rounded_small (s : bool) (m : positive) (e n : Z) :
    Prim2SF x = S754_finite s m e ->
    (562949953421312 <=? abs x) = false ->
    nearest_tenths m e n ->
    rounded_to_tenth x (if s then - (of_uint63 (Uint63.of_Z n) / 10)
                        else of_uint63 (Uint63.of_Z n) / 10)
| rounded_large (s : bool) (m : positive) (e : Z) :
    Prim2SF x = S754_finite s m e ->
    (562949953421312 <=? abs x) = true ->
    rounded_to_tenth x x
| rounded_special :
    (forall s m e, Prim2SF x <> S754_finite s m e) ->
    rounded_to_tenth x x.

(** The percentage as the claim words it, for whole numbers of games:
    the quotient [count / games * 100] itself rounded to one decimal (the
    even tenth when two are equally near), as the double nearest to that
    decimal. *)
Definition claimed_percentage (count games : Z) : float :=
  of_uint63 (Uint63.of_Z (div_half_even (count * 1000) games)) / 10.

(** What [st.metric] is given: [None], or the text of a percentage. *)
Inductive metric_value : Type :=
| NoValue
| Percent (x : float).

(** Truth value of a float: anything but a zero. *)
Definition truthy (x : float) : bool := negb (x =? 0).

Definition percentage (count games : float) : float :=
  round1 (count / games * 100).

(** The [Win %], [Draw %] and [Loss %] metrics of the selected mode. *)
Definition percent_metrics (games wins draws losses : float)
  : metric_value * metric_value * metric_value :=
  if truthy games then
    (Percent (percentage wins games),
     Percent (percentage draws games),
     Percent (percentage losses games))
  else (NoValue, NoValue, NoValue).

End Metrics.

(** ** Ranking order *)

(** Position of the first entry of [col] equal to [k] (the length of
    [col] when there is none). *)
Fixpoint first_index (k : string) (col : list (option string)) : nat :=
  match col with
  | [] => 0
  | Some k' :: r => if String.eqb k k' then 0 else S (first_index k r)
  | None :: r => S (first_index k r)
  end.

(** [p] is ranked before [q]: a larger count, or the same count and an
    earlier first occurrence in the column. *)
Definition ranked_before (col : list (option string)) (p q : string * nat) : Prop :=
  snd q < snd p
  \/ (snd p = snd q /\ first_index (fst p) col < first_index (fst q) col).

Definition sum_played (rows : list Row) : nat := list_sum (map games_played rows).

Definition counts_positive (s : loop_state) : Prop :=
  Forall (fun r => 1 <= games_played r) (favorite_openings_df s).

(** ** Tag lines that read back *)

(** The characters named by the parser's splits. *)
Definition open_bracket : ascii := ascii_of_nat 91.
Definition close_bracket : ascii := ascii_of_nat 93.
Definition quote : ascii := ascii_of_nat 34.
Definition space : ascii := ascii_of_nat 32.

(** A key or value free of brackets and quotes. *)
Definition plain (s : string) : bool :=
  negb (PyStr.mem open_bracket s) && negb (PyStr.mem close_bracket s)
  && negb (PyStr.mem quote s).

(** The characters stripped from a value: space and quote. *)
Definition value_trim : string := " " ++ PyStr.dq.

(** A key with no white space around it, a value with no space or quote
    around it: stripping them again changes nothing. *)
Definition stripped_field (kv : string * string) : Prop :=
  PyStr.strip (fst kv) = fst kv /\ PyStr.strip_chars value_trim (snd kv) = snd kv.

(** ** Counting by hand *)

(** How often [o] stands in a column. *)
Fixpoint occurrences (o : string) (col : list (option string)) : nat :=
  match col with
  | [] => 0
  | Some k :: r => (if String.eqb o k then 1 else 0) + occurrences o r
  | None :: r => occurrences o r
  end.

(** The values present in a column. *)
Fixpoint present (col : list (option string)) : list string :=
  match col with
  | [] => []
  | Some k :: r => k :: present r
  | None :: r => present r
  end.

(** The number of different values present in a column. *)
Definition distinct_count (col : list (option string)) : nat :=
  List.length (nodup string_dec (present col)).

(** The column the ranking reads. *)
Definition opening_column (df : DataFrame.t) : list (option string) :=
  map (PyDict.get "Opening") (DataFrame.rows df).

(** ** What a group adds *)

(** The rows the step of a group appends when it returns: none for a
    failed request or an empty frame, the frame of the group otherwise. *)
Definition group_rows (requests_get : string -> response) (username mode color : string)
  : list Row :=
  let response := requests_get (games_url username color mode) in
  if (status_code response =? 200)%Z then
    match pgn_to_dataframe (text response) with
    | Ok pgn_dataframe =>
        if DataFrame.empty pgn_dataframe then []
        else match openings_frame mode color pgn_dataframe with
             | Ok openings_df => openings_df
             | Raise _ => []
             end
    | Raise _ => []
    end
  else [].

(** The request of a (mode, color) pair was not answered with 200. *)
Definition request_failed (requests_get : string -> response) (username : string)
  (p : string * string) : bool :=
  negb (status_code (requests_get (games_url username (snd p) (fst p))) =? 200)%Z.

(** ** Reading the table *)

(** [series.unique()]: the values in order of first appearance. *)
Fixpoint unique (l : list string) : list string :=
  match l with
  | [] => []
  | x :: r => x :: filter (fun y => negb (String.eqb y x)) (unique r)
  end.

(** [df[df[column] == value]] *)
Definition rows_where (column : Row -> string) (value : string) (df : list Row)
  : list Row :=
  filter (fun r => String.eqb (column r) value) df.

(** The loop that ends the openings part of [main]: the modes shown with
    [st.info], those not among the unique values of the mode column.  It
    is reached only when the call that draws the table has returned. *)
Definition modes_without_openings (df : list Row) (game_modes : list string)
  : list string :=
  filter (fun mode => negb (existsb (String.eqb mode) (unique (map game_mode df))))
         game_modes.

(** What [visualize_most_favorite_openings] hands to one subplot: positions
    and heights of the white and of the black bars, the ticks and their
    labels.  The drawing itself is not modelled. *)
Record subplot : Type := mkSubplot {
  subplot_mode : string;
  white_x : list nat;
  white_heights : list nat;
  black_x : list nat;
  black_heights : list nat;
  xticks : list nat;
  xticklabels : list string
}.

(** The body of the loop over the modes of the table: what the subplot
    [ax[idx]] of a mode is given.  The loop runs on an array of subplots,
    which [plt.subplots] returns for two rows or more. *)
Definition mode_subplot (most_favorite_openings_df : list Row) (mode : string) : subplot :=
  let mode_df := rows_where game_mode mode most_favorite_openings_df in
  let x := seq 0 (List.length mode_df) in
  let white_openings := rows_where piece "white" mode_df in
  let black_openings := rows_where piece "black" mode_df in
  let all_openings := map opening white_openings ++ map opening black_openings in
  let all_labels :=
    firstn (List.length white_openings) all_openings
    ++ skipn (List.length white_openings) all_openings in
  mkSubplot mode
            (firstn (List.length white_openings) x) (map games_played white_openings)
            (skipn (List.length white_openings) x) (map games_played black_openings)
            x all_labels.

(** [visualize_most_favorite_openings] on a table returned by
    [get_most_favorite_openings]: one subplot for each mode of the table,
    in order of first appearance.  [plt.subplots(0, 1)] raises
    [ValueError]; [plt.subplots(1, 1)] returns a single subplot instead of
    an array, and the first [ax[idx]] raises [TypeError]. *)
Definition visualize_most_favorite_openings (most_favorite_openings_df : list Row)
  : result (list subplot) :=
  let game_modes := unique (map game_mode most_favorite_openings_df) in
  match game_modes with
  | [] => Raise ValueError
  | [_] => Raise TypeError
  | _ :: _ :: _ => Ok (map (mode_subplot most_favorite_openings_df) game_modes)
  end.

(** The openings part of [main]: the ranking, the drawing, and then the
    modes reported without openings.  The result holds the subplots drawn
    and the modes reported. *)
Definition main_most_favorite_openings (requests_get : string -> response)
  (username : string) (game_modes : list string)
  : result (list subplot * list string) :=
  s <- get_most_favorite_openings requests_get username game_modes ;;
  plots <- visualize_most_favorite_openings (favorite_openings_df s) ;;
  Ok (plots, modes_without_openings (favorite_openings_df s) game_modes).

(** ** Sample inputs *)

Module Sample.

Definition tag (k v : string) : string :=
  "[" ++ k ++ " " ++ PyStr.dq ++ v ++ PyStr.dq ++ "]".

Definition game (opening res : string) : string :=
  tag "Opening" opening ++ PyStr.nl ++ tag "Result" res.

(** Three games, the last one not followed by a separator. *)
Definition three_games : string :=
  game "Italian Game" "1-0" ++ block_sep
  ++ game "Italian Game" "0-1" ++ block_sep
  ++ game "Sicilian Defense" "1-0".

(** An export: every game followed by the block separator. *)
Definition export (games : list string) : string :=
  String.concat "" (map (fun g : string => (g ++ block_sep)%string) games).

(** Nine games: six openings, two of them played twice, and one game
    without the tag. *)
Definition season : string :=
  export [game "Sicilian Defense" "1-0"; game "Italian Game" "0-1";
          game "Italian Game" "1-0"; tag "Result" "1/2-1/2";
          game "Sicilian Defense" "0-1"; game "Ruy Lopez" "1-0";
          game "French Defense" "1-0"; game "Caro-Kann Defense" "0-1";
          game "English Opening" "1-0"].

(** The frame the parser makes of [season]. *)
Definition season_frame : DataFrame.t :=
  Eval vm_compute in
    match pgn_to_dataframe season with
    | Ok df => df
    | Raise _ => DataFrame.mk [] []
    end.

(** Seventeen games, each with an opening of its own. *)
Definition seventeen : string :=
  export (map (fun o => game o "1-0")
              ["Sicilian Defense"; "Italian Game"; "Ruy Lopez"; "French Defense";
               "Caro-Kann Defense"; "English Opening"; "Queen's Gambit";
               "King's Indian Defense"; "Scandinavian Defense"; "Pirc Defense";
               "Vienna Game"; "Scotch Game"; "London System"; "Dutch Defense";
               "Slav Defense"; "Nimzo-Indian Defense"; "Alekhine Defense"]).

(** The frame the parser makes of [seventeen]. *)
Definition seventeen_frame : DataFrame.t :=
  Eval vm_compute in
    match pgn_to_dataframe seventeen with
    | Ok df => df
    | Raise _ => DataFrame.mk [] []
    end.

(** A server that answers every request with the same body. *)
Definition always (body : string) : string -> response :=
  fun _ => mkResponse 200 body.

(** A server that has games for the white pieces only and fails for the
    black ones. *)
Definition white_only (body : string) : string -> response :=
  fun url =>
    if PyStr.contains "color=white" url then mkResponse 200 body
    else mkResponse 404 "".

(** A server that has games in blitz only and an empty export elsewhere. *)
Definition blitz_only (body : string) : string -> response :=
  fun url =>
    if PyStr.contains "perfType=blitz" url then mkResponse 200 body
    else mkResponse 200 "".

(** A server that has games in blitz and in rapid and an empty export
    elsewhere. *)
Definition blitz_and_rapid (body : string) : string -> response :=
  fun url =>
    if PyStr.contains "perfType=blitz" url || PyStr.contains "perfType=rapid" url
    then mkResponse 200 body
    else mkResponse 200 "".

End Sample.

(** ** Writing an export *)

Definition newline : ascii := ascii_of_nat 10.

(** A field that a tag line carries unchanged: no bracket, quote or
    newline in the key or the value, nothing to strip around them. *)
Definition clean_field (kv : string * string) : Prop :=
  plain (fst kv) = true /\ plain (snd kv) = true
  /\ PyStr.mem newline (fst kv) = false /\ PyStr.mem newline (snd kv) = false
  /\ stripped_field kv.

(** A record whose keys differ and whose fields are clean. *)
Definition clean_record (rec : PyDict.t) : Prop :=
  NoDup (PyDict.keys rec) /\ Forall clean_field rec.

Definition tag_line (kv : string * string) : string := Sample.tag (fst kv) (snd kv).

(** The block of a record: one tag line per field. *)
Definition render_game (rec : PyDict.t) : string :=
  String.concat PyStr.nl (map tag_line rec).

(** The export of some records: every block followed by the separator. *)
Definition render_export (recs : list PyDict.t) : string :=
  Sample.export (map render_game recs).

(** Every newline of the text is followed by a character that is not one. *)
Fixpoint newlines_single (s : string) : bool :=
  match s with
  | EmptyString => true
  | String c r =>
      if Ascii.eqb c newline then
        match r with
        | EmptyString => false
        | String d _ => negb (Ascii.eqb d newline) && newlines_single r
        end
      else newlines_single r
  end.

(** * Properties *)

(** ** Evaluation on small inputs *)

Example split_blocks :
  PyStr.split block_sep ("a" ++ block_sep ++ "b" ++ block_sep) = ["a"; "b"; ""].
Proof. reflexivity. Qed.

Example split_empty : PyStr.split block_sep "" = [""].
Proof. reflexivity. Qed.

Example split_overlap :
  PyStr.split block_sep ("a" ++ block_sep ++ PyStr.nl ++ "b") = ["a"; (PyStr.nl ++ "b")%string].
Proof. reflexivity. Qed.

Example parse_line_tag :
  parse_line [] (Sample.tag "Opening" "Italian Game") = Ok [("Opening", "Italian Game")].
Proof. reflexivity. Qed.

Example parse_line_movetext : parse_line [("Opening", "A")] "1. e4 e5" = Ok [("Opening", "A")].
Proof. reflexivity. Qed.

Example strip_key : PyStr.strip "  White  " = "White".
Proof. reflexivity. Qed.

Example value_counts_ties :
  Series.value_counts [Some "b"; Some "a"; None; Some "c"; Some "a"; Some "c"; Some "d"]
  = [("a", 2); ("c", 2); ("b", 1); ("d", 1)].
Proof. reflexivity. Qed.

(** ** The error monad *)

Lemma bind_Ok {A B : Type} (c : result A) (k : A -> result B) (b : B) :
  bind c k = Ok b -> exists a, c = Ok a /\ k a = Ok b.
Proof.
  destruct c as [a | e]; simpl; intro H.
  - exists a; split; [reflexivity | exact H].
  - discriminate H.
Qed.

Ltac bind_inv H :=
  let a := fresh "a" in
  let Ha := fresh "Ha" in
  apply bind_Ok in H; destruct H as [a [Ha H]].

(** ** The last split segment *)

Lemma game_blocks_drops_last (pgn_file : string) :
  List.length (game_blocks pgn_file)
  = List.length (PyStr.split block_sep pgn_file) - 1.
Proof.
  unfold game_blocks.
  generalize (PyStr.split block_sep pgn_file) as l.
  induction l as [| a [| b l] IH]; simpl in *; try reflexivity.
  rewrite IH. lia.
Qed.

(** C1.  The parser drops the last split segment whatever it holds: the
    three-game text that ends without a separator parses to two records,
    and to three once a separator is appended. *)
Theorem C1_last_segment_dropped :
  (exists df, pgn_to_dataframe Sample.three_games = Ok df
              /\ List.length (DataFrame.rows df) = 2)
  /\ (exists df, pgn_to_dataframe (Sample.three_games ++ block_sep) = Ok df
                 /\ List.length (DataFrame.rows df) = 3).
Proof.
  split; eexists; split; vm_compute; reflexivity.
Qed.

(** ** Lines that do not unpack into a key and a value *)

Lemma parse_line_no_open (d : PyDict.t) (line : string) :
  PyStr.contains "[" line = false -> parse_line d line = Ok d.
Proof. intro H. unfold parse_line. rewrite H. reflexivity. Qed.

Lemma parse_line_no_close (d : PyDict.t) (line : string) :
  PyStr.contains "]" line = false -> parse_line d line = Ok d.
Proof. intro H. unfold parse_line. rewrite H, andb_false_r. reflexivity. Qed.

(** C2.  A line that holds both brackets but whose bracketed text does not
    split into exactly a key and a value raises [ValueError] and aborts the
    whole parse: a bare [[Foo]], a clock comment inside the movetext, and a
    value that itself holds a quoted word. *)
Theorem C2_malformed_line_aborts :
  pgn_to_dataframe
    (Sample.tag "Opening" "Italian Game" ++ PyStr.nl ++ "[Foo]" ++ block_sep)
  = Raise ValueError
  /\ pgn_to_dataframe
       (Sample.tag "Opening" "Italian Game" ++ PyStr.nl
        ++ "1. e4 { [%clk 0:03:00] } e5" ++ block_sep)
     = Raise ValueError
  /\ pgn_to_dataframe
       (Sample.tag "Event" ("Rated " ++ PyStr.dq ++ "Fun" ++ PyStr.dq ++ " game")
        ++ block_sep)
     = Raise ValueError.
Proof. repeat split; vm_compute; reflexivity. Qed.

(** ** Groups the frame construction cannot take *)

(** C3.  With two distinct openings the mode and piece columns still have
    [top_n] entries while the opening and count columns have two, and the
    frame construction raises [ValueError]. *)
Theorem C3_fewer_than_top_n_raises :
  group_step (Sample.always (Sample.three_games ++ block_sep)) "user" "blitz" "white"
             (mkState [] [])
  = Raise ValueError.
Proof. vm_compute. reflexivity. Qed.

(** C4.  When no record of a non-empty corpus has the tag, the frame has
    no such column and selecting it raises [KeyError]. *)
Theorem C4_no_opening_column_raises :
  group_step (Sample.always (Sample.tag "Result" "1-0" ++ block_sep)) "user" "blitz" "white"
             (mkState [] [])
  = Raise KeyError.
Proof. vm_compute. reflexivity. Qed.

(** ** Empty corpora *)

Lemma empty_of_no_rows (df : DataFrame.t) :
  DataFrame.rows df = [] -> DataFrame.empty df = true.
Proof.
  intro H. unfold DataFrame.empty. rewrite H.
  destruct (DataFrame.columns df); reflexivity.
Qed.

Lemma for_colors_run_groups rg u mode colors s :
  for_colors rg u mode colors s = run_groups rg u (map (pair mode) colors) s.
Proof.
  revert s. induction colors as [| c r IH]; intro s; simpl; [reflexivity |].
  destruct (group_step rg u mode c s); simpl; [apply IH | reflexivity].
Qed.

Lemma run_groups_app rg u l1 l2 s :
  run_groups rg u (l1 ++ l2) s
  = bind (run_groups rg u l1 s) (run_groups rg u l2).
Proof.
  revert s. induction l1 as [| [m c] r IH]; intro s; simpl; [reflexivity |].
  destruct (group_step rg u m c s); simpl; [apply IH | reflexivity].
Qed.

(** The nested loops visit the (mode, color) pairs in order. *)
Lemma for_modes_run_groups rg u game_modes s :
  for_modes rg u game_modes s = run_groups rg u (mode_color_pairs game_modes) s.
Proof.
  revert s. induction game_modes as [| m r IH]; intro s; [reflexivity |].
  cbn [for_modes mode_color_pairs flat_map].
  rewrite run_groups_app, for_colors_run_groups.
  destruct (run_groups rg u (map (pair m) piece_colors) s); simpl;
    [apply IH | reflexivity].
Qed.

(** C7.  A pair whose corpus has no record leaves the loop state as it is:
    no row, no exception, and the loop over any list of pairs gives what
    it gives without that pair. *)
Theorem C7_empty_corpus_no_rows :
  forall (requests_get : string -> response) (username mode color : string)
         (df : DataFrame.t),
    status_code (requests_get (games_url username color mode)) = 200%Z ->
    pgn_to_dataframe (text (requests_get (games_url username color mode))) = Ok df ->
    DataFrame.rows df = [] ->
    (forall s, group_step requests_get username mode color s = Ok s)
    /\ (forall before after s,
          run_groups requests_get username (before ++ (mode, color) :: after) s
          = run_groups requests_get username (before ++ after) s).
Proof.
  intros rg u mode color df Hst Hdf Hrows.
  assert (Hstep : forall s, group_step rg u mode color s = Ok s).
  { intro s. unfold group_step. rewrite Hst, Hdf. simpl.
    rewrite (empty_of_no_rows df Hrows). reflexivity. }
  split; [exact Hstep |].
  intros before after s. rewrite !run_groups_app.
  destruct (run_groups rg u before s) as [s' | e]; simpl; [| reflexivity].
  rewrite Hstep. reflexivity.
Qed.

Lemma C7_empty_corpus_no_rows_witness :
  (forall s, group_step (Sample.always "") "user" "blitz" "white" s = Ok s)
  /\ (forall before after s,
        run_groups (Sample.always "") "user" (before ++ ("blitz", "white") :: after) s
        = run_groups (Sample.always "") "user" (before ++ after) s).
Proof.
  apply (C7_empty_corpus_no_rows (Sample.always "") "user" "blitz" "white"
           (DataFrame.of_records [])); reflexivity.
Defined.

(** ** Duplicate tags *)

Lemma get_set_eq (k v : string) (d : PyDict.t) :
  PyDict.get k (PyDict.set k v d) = Some v.
Proof.
  induction d as [| [k' v'] r IH]; simpl.
  - rewrite String.eqb_refl. reflexivity.
  - destruct (String.eqb k k') eqn:E; simpl; rewrite ?String.eqb_refl, ?E; auto.
Qed.

Lemma get_set_neq (k k' v : string) (d : PyDict.t) :
  k <> k' -> PyDict.get k (PyDict.set k' v d) = PyDict.get k d.
Proof.
  intro Hne. induction d as [| [k0 v0] r IH]; simpl.
  - apply String.eqb_neq in Hne. rewrite Hne. reflexivity.
  - destruct (String.eqb k' k0) eqn:E; simpl.
    + apply String.eqb_eq in E. subst k0.
      apply String.eqb_neq in Hne. rewrite Hne. reflexivity.
    + destruct (String.eqb k k0); auto.
Qed.

(** A line is skipped, or assigns one key, or raises; which of the three
    does not depend on the dictionary built so far. *)
Lemma parse_line_cases (line : string) :
  (forall d, parse_line d line = Ok d)
  \/ (exists k v, forall d, parse_line d line = Ok (PyDict.set k v d))
  \/ (exists e, forall d, parse_line d line = Raise e).
Proof.
  unfold parse_line.
  destruct (PyStr.contains "[" line && PyStr.contains "]" line); [| left; reflexivity].
  destruct (nth_error (PyStr.split "[" line) 1) as [after |];
    [| right; right; exists IndexError; reflexivity].
  destruct (PyStr.split "]" after) as [| inside rest];
    [right; right; exists IndexError; reflexivity |].
  destruct (PyStr.split (" " ++ PyStr.dq) inside) as [| key [| value [| x xs]]];
    try (right; right; exists ValueError; reflexivity).
  right; left. eexists; eexists. reflexivity.
Qed.

Lemma parse_lines_app (d : PyDict.t) (l1 l2 : list string) :
  parse_lines d (l1 ++ l2) = bind (parse_lines d l1) (fun d' => parse_lines d' l2).
Proof.
  revert d. induction l1 as [| line r IH]; intro d; simpl; [reflexivity |].
  destruct (parse_line d line); simpl; [apply IH | reflexivity].
Qed.

Lemma later_lines_keep (k v : string) (after : list string) :
  (forall l v', In l after -> parse_line [] l <> Ok [(k, v')]) ->
  forall d rec,
    PyDict.get k d = Some v ->
    parse_lines d after = Ok rec ->
    PyDict.get k rec = Some v.
Proof.
  induction after as [| l r IH]; intros Hlater d rec Hget Hrun; simpl in Hrun.
  - injection Hrun as <-. exact Hget.
  - bind_inv Hrun.
    apply (IH (fun l' v' Hin => Hlater l' v' (or_intror Hin)) a rec); [| exact Hrun].
    destruct (parse_line_cases l) as [Hskip | [[k' [v' Hset]] | [e He]]].
    + rewrite Hskip in Ha. injection Ha as <-. exact Hget.
    + rewrite Hset in Ha. injection Ha as <-.
      rewrite get_set_neq; [exact Hget |].
      intros ->. apply (Hlater l v' (or_introl eq_refl)).
      rewrite Hset. reflexivity.
    + rewrite He in Ha. discriminate Ha.
Qed.

(** C9.  In a block that parses, the record maps a key to the value of the
    last recognized tag line with that key: [line] assigns [k] to [v], no
    later line of the block assigns [k], whatever the lines before did. *)
Theorem C9_last_occurrence_wins :
  forall (game : string) (before : list string) (line : string)
         (after : list string) (k v : string) (rec : PyDict.t),
    PyStr.split PyStr.nl game = before ++ line :: after ->
    parse_line [] line = Ok [(k, v)] ->
    (forall l v', In l after -> parse_line [] l <> Ok [(k, v')]) ->
    parse_game game = Ok rec ->
    PyDict.get k rec = Some v.
Proof.
  intros game before line after k v rec Hsplit Hline Hlater Hrun.
  unfold parse_game in Hrun. rewrite Hsplit, parse_lines_app in Hrun.
  bind_inv Hrun. simpl in Hrun. bind_inv Hrun.
  apply (later_lines_keep k v after Hlater a0 rec); [| exact Hrun].
  destruct (parse_line_cases line) as [Hskip | [[k' [v' Hset]] | [e He]]].
  - rewrite Hskip in Hline. discriminate Hline.
  - rewrite Hset in Hline. simpl in Hline. injection Hline as -> ->.
    rewrite Hset in Ha0. injection Ha0 as <-. apply get_set_eq.
  - rewrite He in Hline. discriminate Hline.
Qed.

Lemma C9_last_occurrence_wins_witness :
  parse_game (Sample.tag "Opening" "Italian Game" ++ PyStr.nl
              ++ Sample.tag "Opening" "Sicilian Defense" ++ PyStr.nl
              ++ Sample.tag "Result" "1-0")
  = Ok [("Opening", "Sicilian Defense"); ("Result", "1-0")]
  /\ PyDict.get "Opening" [("Opening", "Sicilian Defense"); ("Result", "1-0")]
     = Some "Sicilian Defense".
Proof.
  split; [reflexivity |].
  apply (C9_last_occurrence_wins
           (Sample.tag "Opening" "Italian Game" ++ PyStr.nl
            ++ Sample.tag "Opening" "Sicilian Defense" ++ PyStr.nl
            ++ Sample.tag "Result" "1-0")
           [Sample.tag "Opening" "Italian Game"]
           (Sample.tag "Opening" "Sicilian Defense")
           [Sample.tag "Result" "1-0"]
           "Opening" "Sicilian Defense").
  - reflexivity.
  - reflexivity.
  - intros l v' [<- | []]. vm_compute. discriminate.
  - reflexivity.
Defined.

(** ** Lists sorted by a relation *)

Section StronglySortedFacts.

Context {A : Type}.

Lemma StronglySorted_ext_in (R R' : A -> A -> Prop) (l : list A) :
  (forall a b, In a l -> In b l -> R a b -> R' a b) ->
  StronglySorted R l -> StronglySorted R' l.
Proof.
  intros Hext Hs. induction Hs as [| a l Hs IH Hall]; constructor.
  - apply IH. intros x y Hx Hy. apply Hext; right; assumption.
  - rewrite Forall_forall in *. intros x Hx.
    apply Hext; [left; reflexivity | right; exact Hx | apply Hall; exact Hx].
Qed.

Lemma StronglySorted_snoc (R : A -> A -> Prop) (l : list A) (x : A) :
  StronglySorted R l -> Forall (fun a => R a x) l -> StronglySorted R (l ++ [x]).
Proof.
  intros Hs Hall. induction Hs as [| a l Hs IH Ha]; simpl.
  - constructor; constructor.
  - inversion Hall as [| ? ? Hax Hl]; subst. constructor.
    + apply IH. exact Hl.
    + apply Forall_app. split; [exact Ha | constructor; [exact Hax | constructor]].
Qed.

Lemma StronglySorted_firstn (R : A -> A -> Prop) (n : nat) (l : list A) :
  StronglySorted R l -> StronglySorted R (firstn n l).
Proof.
  intro Hs. revert n. induction Hs as [| a l Hs IH Ha]; intros [| n]; simpl;
    try constructor.
  - apply IH.
  - rewrite Forall_forall in *. intros x Hx. apply Ha.
    rewrite <- (firstn_skipn n l). apply in_or_app. left. exact Hx.
Qed.

Lemma Forall_firstn (P : A -> Prop) (n : nat) (l : list A) :
  Forall P l -> Forall P (firstn n l).
Proof.
  intro H. revert n. induction H as [| a l Ha Hl IH]; intros [| n]; simpl;
    constructor; auto.
Qed.

Lemma StronglySorted_of_map {B : Type} (f : A -> B) (R : B -> B -> Prop) (l : list A) :
  StronglySorted R (map f l) -> StronglySorted (fun p q => R (f p) (f q)) l.
Proof.
  induction l as [| a l IH]; simpl; intro Hs; [constructor |].
  apply StronglySorted_inv in Hs. destruct Hs as [Hs Ha]. constructor.
  - apply IH. exact Hs.
  - rewrite Forall_map in Ha. exact Ha.
Qed.

End StronglySortedFacts.

(** ** First occurrences *)

Lemma first_index_app_in (k : string) (col r : list (option string)) :
  In (Some k) col -> first_index k (col ++ r) = first_index k col.
Proof.
  induction col as [| [k' |] col IH]; simpl; intro H; [contradiction | |];
    destruct H as [H | H]; try discriminate H.
  - injection H as ->. rewrite String.eqb_refl. reflexivity.
  - destruct (String.eqb k k'); [reflexivity | f_equal; apply IH; exact H].
  - f_equal. apply IH. exact H.
Qed.

Lemma first_index_lt (k : string) (col : list (option string)) :
  In (Some k) col -> first_index k col < List.length col.
Proof.
  induction col as [| [k' |] col IH]; simpl; intro H; [contradiction | |];
    destruct H as [H | H]; try discriminate H.
  - injection H as ->. rewrite String.eqb_refl. lia.
  - destruct (String.eqb k k'); [lia | apply IH in H; lia].
  - apply IH in H. lia.
Qed.

Lemma first_index_app_notin (k : string) (col r : list (option string)) :
  ~ In (Some k) col ->
  first_index k (col ++ r) = List.length col + first_index k r.
Proof.
  induction col as [| [k' |] col IH]; simpl; intro Hn; [reflexivity | |].
  - destruct (String.eqb k k') eqn:E.
    + apply String.eqb_eq in E. subst k'. exfalso. apply Hn. left. reflexivity.
    + f_equal. apply IH. intro H. apply Hn. right. exact H.
  - f_equal. apply IH. intro H. apply Hn. right. exact H.
Qed.

(** ** The count *)

Lemma bump_keys (k k0 : string) (acc : Series.t) :
  In k (map fst (Series.bump k0 acc)) <-> k0 = k \/ In k (map fst acc).
Proof.
  induction acc as [| [k' n] r IH]; simpl.
  - tauto.
  - destruct (String.eqb k0 k') eqn:E; simpl.
    + apply String.eqb_eq in E. subst k'. tauto.
    + rewrite IH. tauto.
Qed.

Lemma bump_in (k : string) (acc : Series.t) :
  In k (map fst acc) -> map fst (Series.bump k acc) = map fst acc.
Proof.
  induction acc as [| [k' n] r IH]; simpl; intro H; [contradiction |].
  destruct (String.eqb k k') eqn:E; simpl; [reflexivity |].
  f_equal. apply IH. destruct H as [H | H]; [| exact H].
  subst k'. rewrite String.eqb_refl in E. discriminate E.
Qed.

Lemma bump_notin (k : string) (acc : Series.t) :
  ~ In k (map fst acc) -> Series.bump k acc = acc ++ [(k, 1)].
Proof.
  induction acc as [| [k' n] r IH]; simpl; intro H; [reflexivity |].
  destruct (String.eqb k k') eqn:E.
  - apply String.eqb_eq in E. subst k'. exfalso. apply H. left. reflexivity.
  - f_equal. apply IH. intro Hin. apply H. right. exact Hin.
Qed.

Lemma bump_sum (k : string) (acc : Series.t) :
  list_sum (map snd (Series.bump k acc)) = S (list_sum (map snd acc)).
Proof.
  induction acc as [| [k' n] r IH]; simpl; [reflexivity |].
  destruct (String.eqb k k'); simpl; [reflexivity | rewrite IH; lia].
Qed.

Lemma bump_positive (k : string) (acc : Series.t) :
  Forall (fun p => 1 <= snd p) acc ->
  Forall (fun p => 1 <= snd p) (Series.bump k acc).
Proof.
  induction acc as [| [k' n] r IH]; simpl; intro H.
  - constructor; [simpl; lia | constructor].
  - inversion H as [| ? ? Hn Hr]; subst.
    destruct (String.eqb k k'); constructor; simpl in *; auto; lia.
Qed.

Lemma tally_snoc (col : list (option string)) (x : option string) :
  Series.tally (col ++ [x]) = Series.tally_step (Series.tally col) x.
Proof. unfold Series.tally. rewrite fold_left_app. reflexivity. Qed.

Lemma tally_keys (k : string) (col : list (option string)) :
  In k (map fst (Series.tally col)) <-> In (Some k) col.
Proof.
  induction col as [| x col IH] using rev_ind; [simpl; tauto |].
  rewrite tally_snoc, in_app_iff. destruct x as [k0 |]; simpl.
  - rewrite bump_keys, IH. split.
    + intros [-> | H]; auto.
    + intros [H | [H | []]]; [auto | injection H as ->; auto].
  - rewrite IH. split; [auto | intros [H | [H | []]]; [exact H | discriminate H]].
Qed.

Lemma tally_sum (col : list (option string)) :
  list_sum (map snd (Series.tally col)) <= List.length col.
Proof.
  induction col as [| x col IH] using rev_ind; [simpl; lia |].
  rewrite tally_snoc, length_app. destruct x as [k |]; simpl.
  - rewrite bump_sum. lia.
  - lia.
Qed.

Lemma tally_positive (col : list (option string)) :
  Forall (fun p => 1 <= snd p) (Series.tally col).
Proof.
  induction col as [| x col IH] using rev_ind; [constructor |].
  rewrite tally_snoc. destruct x as [k |]; simpl; [apply bump_positive |]; exact IH.
Qed.

(** The keys of the count stand in order of first occurrence. *)
Lemma tally_first_occurrence (col : list (option string)) :
  StronglySorted (fun a b => first_index a col < first_index b col)
                 (map fst (Series.tally col)).
Proof.
  induction col as [| x col IH] using rev_ind; [constructor |].
  assert (Hold : StronglySorted
                   (fun a b => first_index a (col ++ [x]) < first_index b (col ++ [x]))
                   (map fst (Series.tally col))).
  { revert IH. apply StronglySorted_ext_in. intros a b Ha Hb Hab.
    apply tally_keys in Ha, Hb.
    rewrite !first_index_app_in by assumption. exact Hab. }
  rewrite tally_snoc. destruct x as [k |]; simpl; [| exact Hold].
  destruct (in_dec string_dec k (map fst (Series.tally col))) as [Hin | Hn].
  - rewrite bump_in by exact Hin. exact Hold.
  - rewrite bump_notin by exact Hn. rewrite map_app. simpl.
    apply StronglySorted_snoc; [exact Hold |].
    rewrite Forall_forall. intros a Ha. apply tally_keys in Ha.
    rewrite first_index_app_in by exact Ha.
    rewrite first_index_app_notin by (rewrite <- tally_keys; exact Hn).
    apply first_index_lt in Ha. lia.
Qed.

(** ** Arrays of entries *)

Lemma length_put (i : nat) (x : Numpy.entry) (a : list Numpy.entry) :
  List.length (Numpy.put i x a) = List.length a.
Proof.
  revert i. induction a as [| y r IH]; intros [| i]; simpl; try reflexivity.
  rewrite IH. reflexivity.
Qed.

Lemma at_put (i k : nat) (x : Numpy.entry) (a : list Numpy.entry) :
  i < List.length a ->
  Numpy.at_ (Numpy.put i x a) k = if (k =? i)%nat then x else Numpy.at_ a k.
Proof.
  unfold Numpy.at_. revert i k. induction a as [| y r IH]; intros i k Hi; simpl in Hi.
  - lia.
  - destruct i as [| i], k as [| k]; simpl; try reflexivity.
    apply IH. lia.
Qed.

Lemma put_same (i : nat) (a : list Numpy.entry) :
  Numpy.put i (Numpy.at_ a i) a = a.
Proof.
  unfold Numpy.at_. revert i. induction a as [| y r IH]; intros [| i]; simpl;
    try reflexivity.
  rewrite IH. reflexivity.
Qed.

Lemma length_swap (i j : nat) (a : list Numpy.entry) :
  List.length (Numpy.swap i j a) = List.length a.
Proof. unfold Numpy.swap. rewrite !length_put. reflexivity. Qed.

Lemma at_swap (i j k : nat) (a : list Numpy.entry) :
  i < List.length a -> j < List.length a ->
  Numpy.at_ (Numpy.swap i j a) k
  = if (k =? i)%nat then Numpy.at_ a j
    else if (k =? j)%nat then Numpy.at_ a i else Numpy.at_ a k.
Proof.
  intros Hi Hj. unfold Numpy.swap.
  rewrite at_put by (rewrite length_put; exact Hi).
  rewrite at_put by exact Hj. reflexivity.
Qed.

(** Two arrays of one length that agree up to an exchange of places are
    permutations of each other. *)
Lemma exchange_perm (i j : nat) (a b : list Numpy.entry) :
  List.length b = List.length a ->
  i < List.length a -> j < List.length a ->
  (forall k, Numpy.at_ b k
             = if (k =? i)%nat then Numpy.at_ a j
               else if (k =? j)%nat then Numpy.at_ a i else Numpy.at_ a k) ->
  Permutation b a.
Proof.
  intros Hlen Hi Hj Hat. apply Permutation_sym.
  apply (FinFun.Permutation_nth a b Numpy.blank). split; [exact Hlen |].
  exists (fun k => if (k =? i)%nat then j else if (k =? j)%nat then i else k).
  split; [| split].
  - intros k Hk.
    destruct (Nat.eqb_spec k i); [exact Hj |].
    destruct (Nat.eqb_spec k j); [exact Hi | exact Hk].
  - intros k k' Hk Hk'.
    destruct (Nat.eqb_spec k i), (Nat.eqb_spec k' i); try lia;
      destruct (Nat.eqb_spec k j), (Nat.eqb_spec k' j); lia.
  - intros k Hk. fold (Numpy.at_ b k). rewrite Hat.
    unfold Numpy.at_.
    destruct (Nat.eqb_spec k i); [reflexivity |].
    destruct (Nat.eqb_spec k j); reflexivity.
Qed.

Lemma swap_perm (i j : nat) (a : list Numpy.entry) :
  i < List.length a -> j < List.length a ->
  Permutation (Numpy.swap i j a) a.
Proof.
  intros Hi Hj. apply (exchange_perm i j).
  - apply length_swap.
  - exact Hi.
  - exact Hj.
  - intro k. apply at_swap; assumption.
Qed.

Lemma less_lt (x y : Numpy.entry) : Numpy.less x y = true <-> snd x < snd y.
Proof. unfold Numpy.less. apply Nat.ltb_lt. Qed.

Lemma less_ge (x y : Numpy.entry) : Numpy.less x y = false <-> snd y <= snd x.
Proof. unfold Numpy.less. apply Nat.ltb_ge. Qed.

(** ** Sorted lists *)

Lemma StronglySorted_app_intro {A : Type} (R : A -> A -> Prop) (l1 l2 : list A) :
  StronglySorted R l1 -> StronglySorted R l2 ->
  (forall x y, In x l1 -> In y l2 -> R x y) ->
  StronglySorted R (l1 ++ l2).
Proof.
  induction l1 as [| a l1 IH]; simpl; intros H1 H2 Hc; [exact H2 |].
  apply StronglySorted_inv in H1. destruct H1 as [H1 Ha].
  constructor.
  - apply IH; [exact H1 | exact H2 |]. intros x y Hx Hy. apply Hc; auto.
  - apply Forall_app. split; [exact Ha |].
    rewrite Forall_forall. intros y Hy. apply Hc; auto.
Qed.

Lemma StronglySorted_rev {A : Type} (R : A -> A -> Prop) (l : list A) :
  StronglySorted R l -> StronglySorted (fun x y => R y x) (rev l).
Proof.
  induction 1 as [| a l Hs IH Ha]; simpl; [constructor |].
  apply StronglySorted_app_intro.
  - exact IH.
  - constructor; constructor.
  - intros x y Hx [<- | []]. rewrite Forall_forall in Ha.
    apply Ha. apply in_rev. exact Hx.
Qed.

(** An array whose entries grow with the index is a sorted list. *)
Lemma ascending_by_index (l : list Numpy.entry) :
  (forall i j, i < j -> j < List.length l ->
               snd (Numpy.at_ l i) <= snd (Numpy.at_ l j)) ->
  ascending l.
Proof.
  unfold ascending, Numpy.at_. induction l as [| a l IH]; intro H; constructor.
  - apply IH. intros i j Hij Hj. apply (H (S i) (S j)); simpl; lia.
  - rewrite Forall_forall. intros y Hy.
    destruct (In_nth l y Numpy.blank Hy) as [j [Hj <-]].
    apply (H 0 (S j)); simpl; lia.
Qed.

(** ** Insertion sort *)

Lemma shift_perm (x : Numpy.entry) (l : list Numpy.entry) :
  Permutation (Numpy.shift x l) (x :: l).
Proof.
  induction l as [| y r IH]; simpl; [apply Permutation_refl |].
  destruct (Numpy.less x y); [| apply Permutation_refl].
  apply (perm_trans (perm_skip y IH)). apply perm_swap.
Qed.

Lemma shift_descending (x : Numpy.entry) (l : list Numpy.entry) :
  descending l -> descending (Numpy.shift x l).
Proof.
  unfold descending. induction l as [| y r IH]; simpl; intro Hs.
  - constructor; constructor.
  - apply StronglySorted_inv in Hs. destruct Hs as [Hs Hy].
    destruct (Numpy.less x y) eqn:E.
    + apply less_lt in E. constructor; [apply IH; exact Hs |].
      rewrite Forall_forall in *. intros z Hz.
      apply (Permutation_in _ (shift_perm x r)) in Hz.
      destruct Hz as [<- | Hz]; [lia | apply Hy; exact Hz].
    + apply less_ge in E. constructor; [constructor; assumption |].
      constructor; [exact E |].
      rewrite Forall_forall in *. intros z Hz. specialize (Hy z Hz). lia.
Qed.

Lemma insertion_fold (a acc : list Numpy.entry) :
  Permutation (fold_left (fun before x => Numpy.shift x before) a acc) (a ++ acc)
  /\ (descending acc ->
      descending (fold_left (fun before x => Numpy.shift x before) a acc)).
Proof.
  revert acc. induction a as [| x a IH]; intro acc; simpl.
  - split; [apply Permutation_refl | auto].
  - destruct (IH (Numpy.shift x acc)) as [Hp Hs]. split.
    + apply (perm_trans Hp).
      apply (perm_trans (Permutation_app_head a (shift_perm x acc))).
      apply Permutation_sym. apply Permutation_middle.
    + intro Hacc. apply Hs. apply shift_descending. exact Hacc.
Qed.

Lemma insertion_perm (a : list Numpy.entry) : Permutation (Numpy.insertion a) a.
Proof.
  unfold Numpy.insertion.
  apply (perm_trans (Permutation_sym (Permutation_rev _))).
  destruct (insertion_fold a []) as [Hp _]. rewrite app_nil_r in Hp. exact Hp.
Qed.

Lemma insertion_ascending (a : list Numpy.entry) : ascending (Numpy.insertion a).
Proof.
  unfold Numpy.insertion, ascending.
  apply (StronglySorted_rev (fun x y : Numpy.entry => snd y <= snd x)).
  apply insertion_fold. constructor.
Qed.

(** ** The partition *)

Ltac at_swap_all :=
  repeat (rewrite at_swap by (rewrite ?length_swap; lia));
  repeat match goal with
         | |- context [(?x =? ?y)%nat] => destruct (Nat.eqb_spec x y); try lia
         end;
  try first [reflexivity | assumption | lia].

Lemma median3_spec (pm pr : nat) (a : list Numpy.entry) :
  0 < pm -> pm < pr -> pr < List.length a ->
  let a' := Numpy.median3 pm pr a in
  Permutation a' a
  /\ List.length a' = List.length a
  /\ snd (Numpy.at_ a' 0) <= snd (Numpy.at_ a' pm)
  /\ snd (Numpy.at_ a' pm) <= snd (Numpy.at_ a' pr).
Proof.
  intros H0 Hm Hr. unfold Numpy.median3.
  set (a1 := if Numpy.less (Numpy.at_ a pm) (Numpy.at_ a 0)
             then Numpy.swap pm 0 a else a).
  assert (H1 : Permutation a1 a /\ List.length a1 = List.length a
               /\ snd (Numpy.at_ a1 0) <= snd (Numpy.at_ a1 pm)).
  { unfold a1. destruct (Numpy.less _ _) eqn:E.
    - apply less_lt in E. split; [apply swap_perm; lia |].
      split; [apply length_swap |]. at_swap_all.
    - apply less_ge in E. auto using Permutation_refl. }
  clearbody a1. destruct H1 as [P1 [L1 O1]].
  set (a2 := if Numpy.less (Numpy.at_ a1 pr) (Numpy.at_ a1 pm)
             then Numpy.swap pr pm a1 else a1).
  assert (H2 : Permutation a2 a1 /\ List.length a2 = List.length a1
               /\ snd (Numpy.at_ a2 pm) <= snd (Numpy.at_ a2 pr)
               /\ snd (Numpy.at_ a2 0) <= snd (Numpy.at_ a2 pr)).
  { unfold a2. destruct (Numpy.less _ _) eqn:E.
    - apply less_lt in E. split; [apply swap_perm; lia |].
      split; [apply length_swap |]. split; at_swap_all.
    - apply less_ge in E. repeat split; auto using Permutation_refl; lia. }
  clearbody a2. destruct H2 as [P2 [L2 [O2 O2']]].
  cbv zeta. destruct (Numpy.less _ _) eqn:E.
  - apply less_lt in E. split; [| split; [| split]].
    + apply (perm_trans (swap_perm pm 0 a2 ltac:(lia) ltac:(lia))).
      apply (perm_trans P2 P1).
    + rewrite length_swap. lia.
    + at_swap_all.
    + at_swap_all.
  - apply less_ge in E. split; [apply (perm_trans P2 P1) |].
    split; [lia |]. split; assumption.
Qed.

Lemma up_spec (a : list Numpy.entry) (vp : Numpy.entry) :
  forall fuel pi k,
    pi < k -> Numpy.less (Numpy.at_ a k) vp = false -> k - pi <= fuel ->
    let r := Numpy.up fuel a vp pi in
    pi < r <= k
    /\ Numpy.less (Numpy.at_ a r) vp = false
    /\ forall j, pi < j < r -> Numpy.less (Numpy.at_ a j) vp = true.
Proof.
  induction fuel as [| f IH]; intros pi k Hk Hs Hf; [lia |].
  simpl. destruct (Numpy.less (Numpy.at_ a (S pi)) vp) eqn:E.
  - assert (S pi <> k) by (intro Hk'; rewrite Hk' in E; congruence).
    destruct (IH (S pi) k ltac:(lia) Hs ltac:(lia)) as [Hr [Hstop Hbelow]].
    split; [lia |]. split; [exact Hstop |].
    intros j Hj. destruct (Nat.eq_dec j (S pi)) as [-> | Hne]; [exact E |].
    apply Hbelow. lia.
  - split; [lia |]. split; [exact E |]. intros j Hj. lia.
Qed.

Lemma down_spec (a : list Numpy.entry) (vp : Numpy.entry) :
  forall fuel pj k,
    k < pj -> Numpy.less vp (Numpy.at_ a k) = false -> pj - k <= fuel ->
    let r := Numpy.down fuel a vp pj in
    k <= r < pj
    /\ Numpy.less vp (Numpy.at_ a r) = false
    /\ forall j, r < j < pj -> Numpy.less vp (Numpy.at_ a j) = true.
Proof.
  induction fuel as [| f IH]; intros pj k Hk Hs Hf; [lia |].
  simpl. destruct (Numpy.less vp (Numpy.at_ a (pj - 1))) eqn:E.
  - assert (pj - 1 <> k) by (intro Hk'; rewrite Hk' in E; congruence).
    destruct (IH (pj - 1) k ltac:(lia) Hs ltac:(lia)) as [Hr [Hstop Habove]].
    split; [lia |]. split; [exact Hstop |].
    intros j Hj. destruct (Nat.eq_dec j (pj - 1)) as [-> | Hne]; [exact E |].
    apply Habove. lia.
  - split; [lia |]. split; [exact E |]. intros j Hj. lia.
Qed.

(** The scan loop keeps the entries up to [pi] at most the pivot and the
    entries from [pj] on at least the pivot, and leaves the entries from
    [pj] on in place. *)
Lemma hoare_spec (vp : Numpy.entry) :
  forall fuel a pi pj a' p,
    pi < pj -> pj < List.length a -> pj - pi <= fuel ->
    (forall k, k <= pi -> snd (Numpy.at_ a k) <= snd vp) ->
    (forall k, pj <= k -> k < List.length a -> snd vp <= snd (Numpy.at_ a k)) ->
    Numpy.hoare fuel a vp pi pj = (a', p) ->
    Permutation a' a
    /\ List.length a' = List.length a
    /\ pi < p <= pj
    /\ (forall k, k < p -> snd (Numpy.at_ a' k) <= snd vp)
    /\ (forall k, p <= k -> k < List.length a -> snd vp <= snd (Numpy.at_ a' k))
    /\ (forall k, pj <= k -> Numpy.at_ a' k = Numpy.at_ a k).
Proof.
  induction fuel as [| f IH]; intros a pi pj a' p Hij Hj Hf Hlow Hhigh H; [lia |].
  simpl in H.
  destruct (up_spec a vp (List.length a) pi pj Hij
              ltac:(apply less_ge; apply Hhigh; lia) ltac:(lia))
    as [Hi' [Histop Hibelow]].
  destruct (down_spec a vp (List.length a) pj pi Hij
              ltac:(apply less_ge; apply Hlow; lia) ltac:(lia))
    as [Hj' [Hjstop Hjabove]].
  set (pi' := Numpy.up (List.length a) a vp pi) in *.
  set (pj' := Numpy.down (List.length a) a vp pj) in *.
  apply less_ge in Histop, Hjstop.
  assert (Hlow' : forall k, k < pi' -> snd (Numpy.at_ a k) <= snd vp).
  { intros k Hk. destruct (Nat.le_gt_cases k pi) as [Hle | Hgt]; [apply Hlow; exact Hle |].
    specialize (Hibelow k ltac:(lia)). apply less_lt in Hibelow. lia. }
  assert (Hhigh' : forall k, pj' < k -> k < List.length a -> snd vp <= snd (Numpy.at_ a k)).
  { intros k Hk Hn. destruct (Nat.le_gt_cases pj k) as [Hle | Hgt]; [apply Hhigh; assumption |].
    specialize (Hjabove k ltac:(lia)). apply less_lt in Hjabove. lia. }
  destruct (Nat.leb_spec pj' pi') as [Hmeet | Hapart].
  - injection H as <- <-.
    split; [apply Permutation_refl |]. split; [reflexivity |]. split; [lia |].
    split; [exact Hlow' |]. split; [| reflexivity].
    intros k Hk Hn. destruct (Nat.eq_dec k pi') as [-> | Hne]; [exact Histop |].
    apply Hhigh'; lia.
  - apply IH in H; try (rewrite ?length_swap; lia).
    + rewrite length_swap in H.
      destruct H as [Hp [Hl [Hp' [Hlo [Hhi Hsame]]]]].
      split; [apply (perm_trans Hp); apply swap_perm; lia |].
      split; [exact Hl |]. split; [lia |]. split; [exact Hlo |]. split; [exact Hhi |].
      intros k Hk. rewrite Hsame by lia. at_swap_all.
    + intros k Hk. at_swap_all. apply Hlow'. lia.
    + intros k Hk Hn. rewrite length_swap in Hn. at_swap_all. apply Hhigh'; lia.
Qed.

(** After a partition the pivot stands between the entries that are at
    most it and the entries that are at least it, and both sides are
    shorter than the array. *)
Lemma partition_spec (a a' : list Numpy.entry) (p : nat) :
  3 <= List.length a ->
  Numpy.partition a = (a', p) ->
  Permutation a' a
  /\ 0 < p /\ p < List.length a - 1
  /\ (forall k, k < p -> snd (Numpy.at_ a' k) <= snd (Numpy.at_ a' p))
  /\ (forall k, p < k -> k < List.length a ->
                snd (Numpy.at_ a' p) <= snd (Numpy.at_ a' k)).
Proof.
  intros Hn H. unfold Numpy.partition in H.
  set (pr := List.length a - 1) in *.
  set (pm := Nat.div2 pr) in *.
  assert (Hpm : 0 < pm /\ pm < pr).
  { unfold pm. rewrite Nat.div2_div.
    split; [apply Nat.div_str_pos; lia | apply Nat.div_lt; lia]. }
  destruct (median3_spec pm pr a ltac:(lia) ltac:(lia) ltac:(lia))
    as [Pm [Lm [O1 O2]]].
  set (am := Numpy.median3 pm pr a) in *.
  set (vp := Numpy.at_ am pm) in *.
  set (as_ := Numpy.swap pm (pr - 1) am) in *.
  assert (Ls : List.length as_ = List.length a)
    by (unfold as_; rewrite length_swap; exact Lm).
  destruct (Numpy.hoare (List.length as_) as_ vp 0 (pr - 1)) as [ah p'] eqn:Eh.
  injection H as <- <-.
  apply hoare_spec in Eh; try lia.
  - destruct Eh as [Ph [Lh [Hp [Hlo [Hhi Hsame]]]]].
    assert (Hpivot : Numpy.at_ ah (pr - 1) = vp).
    { rewrite Hsame by lia. unfold as_, vp. at_swap_all; congruence. }
    split.
    { apply (perm_trans (swap_perm p' (pr - 1) ah ltac:(lia) ltac:(lia))).
      apply (perm_trans Ph). apply (perm_trans (swap_perm pm (pr - 1) am ltac:(lia) ltac:(lia))).
      exact Pm. }
    split; [lia |]. split; [lia |].
    assert (Hat : Numpy.at_ (Numpy.swap p' (pr - 1) ah) p' = vp).
    { at_swap_all; exact Hpivot. }
    rewrite Hat. split.
    + intros k Hk. at_swap_all. apply Hlo. exact Hk.
    + intros k Hk Hkn. at_swap_all; apply Hhi; lia.
  - intros k Hk. replace k with 0 by lia. unfold as_. at_swap_all.
  - intros k Hk Hkn. unfold as_. at_swap_all.
    + replace (pr - 1) with pm by lia. apply Nat.le_refl.
    + replace k with pr by lia. exact O2.
Qed.

(** ** Heap sort *)

Ltac at_put_all :=
  repeat (rewrite at_put by (rewrite ?length_put; lia));
  repeat match goal with
         | |- context [(?x =? ?y)%nat] => destruct (Nat.eqb_spec x y); try lia
         end;
  try first [reflexivity | assumption | lia].

(** Sinking [tmp] from the hole [i].  Away from the hole the entries
    [lo..n] are a heap, the children of the hole are at most its parent,
    and so is [tmp]; then the entries [lo..n] are a heap afterwards, made
    of [tmp] and the entries below the hole. *)
Lemma sift_spec (n lo : nat) (tmp : Numpy.entry) :
  forall fuel a i,
    1 <= lo -> lo <= i -> i <= n -> n < List.length a -> n < i + fuel ->
    (forall p q, lo <= p -> p <> i -> q <> i -> child q p -> q <= n ->
                 snd (Numpy.at_ a q) <= snd (Numpy.at_ a p)) ->
    (forall p q, lo <= p -> child i p -> child q i -> q <= n ->
                 snd (Numpy.at_ a q) <= snd (Numpy.at_ a p)) ->
    (forall p, lo <= p -> child i p -> snd tmp <= snd (Numpy.at_ a p)) ->
    let r := Numpy.sift fuel n tmp a i (i + i) in
    List.length r = List.length a
    /\ Permutation r (Numpy.put i tmp a)
    /\ heap r lo n
    /\ (forall k, k < i \/ n < k -> Numpy.at_ r k = Numpy.at_ a k)
    /\ (forall P : Numpy.entry -> Prop,
           P tmp -> (forall k, i < k <= n -> P (Numpy.at_ a k)) ->
           forall k, i <= k <= n -> P (Numpy.at_ r k)).
Proof.
  induction fuel as [| f IH]; intros a i Hlo Hi Hn Hlen Hfuel Ha Hg Ht; [lia |].
  assert (Hstop : (forall q, child q i -> q <= n -> snd (Numpy.at_ a q) <= snd tmp) ->
                  let r := Numpy.put i tmp a in
                  List.length r = List.length a
                  /\ Permutation r (Numpy.put i tmp a)
                  /\ heap r lo n
                  /\ (forall k, k < i \/ n < k -> Numpy.at_ r k = Numpy.at_ a k)
                  /\ (forall P : Numpy.entry -> Prop,
                         P tmp -> (forall k, i < k <= n -> P (Numpy.at_ a k)) ->
                         forall k, i <= k <= n -> P (Numpy.at_ r k))).
  { intros Hc r. unfold r. split; [apply length_put |].
    split; [apply Permutation_refl |]. split; [| split].
    - intros p q Hp Hq Hqn. unfold child in *. at_put_all;
        first [ solve [apply Ht; lia] | solve [apply Hc; lia]
              | solve [apply Ha; lia] ].
    - intros k Hk. at_put_all.
    - intros P Ptmp Pa k Hk. at_put_all. apply Pa. lia. }
  cbv zeta. cbn [Numpy.sift].
  destruct (Nat.leb_spec (i + i) n) as [Hj | Hj];
    [| apply Hstop; intros q Hq Hqn; unfold child in Hq; lia].
  set (m := if (i + i <? n)%nat
                  && Numpy.less (Numpy.at_ a (i + i)) (Numpy.at_ a (i + i + 1))
            then i + i + 1 else i + i).
  assert (Hm : child m i /\ m <= n
               /\ forall q, child q i -> q <= n ->
                            snd (Numpy.at_ a q) <= snd (Numpy.at_ a m)).
  { unfold m, child. destruct (Nat.ltb_spec (i + i) n) as [Hlt | Hge]; cbn [andb].
    - destruct (Numpy.less _ _) eqn:E.
      + apply less_lt in E. split; [lia |]. split; [lia |].
        intros q [-> | ->] Hq.
        * replace (2 * i) with (i + i) by lia. lia.
        * replace (2 * i + 1) with (i + i + 1) by lia. lia.
      + apply less_ge in E. split; [lia |]. split; [lia |].
        intros q [-> | ->] Hq.
        * replace (2 * i) with (i + i) by lia. lia.
        * replace (2 * i + 1) with (i + i + 1) by lia. lia.
    - split; [lia |]. split; [lia |]. intros q [-> | ->] Hq; [| lia].
      replace (2 * i) with (i + i) by lia. lia. }
  clearbody m. destruct Hm as [Hmi [Hmn Hmax]].
  destruct (Numpy.less tmp (Numpy.at_ a m)) eqn:E.
  - apply less_lt in E.
    assert (Him : i < m) by (unfold child in Hmi; lia).
    destruct (IH (Numpy.put i (Numpy.at_ a m) a) m Hlo ltac:(lia) Hmn
                ltac:(rewrite length_put; lia) ltac:(lia)) as [Hl [Hp [Hh [Hout HP]]]].
    + intros p q Hp Hpm Hqm Hq Hqn. unfold child in *. at_put_all;
        first [ solve [apply Hmax; lia] | solve [apply (Hg p m); lia]
              | solve [apply Ha; lia] ].
    + intros p q Hp Hmp Hq Hqn. unfold child in *. at_put_all.
      apply Ha; lia.
    + intros p Hp Hmp. unfold child in *. at_put_all.
    + rewrite length_put in Hl. split; [exact Hl |]. split; [| split; [exact Hh | split]].
      * apply (perm_trans Hp). apply (exchange_perm i m).
        -- rewrite !length_put. reflexivity.
        -- rewrite length_put. lia.
        -- rewrite length_put. lia.
        -- intro k. at_put_all.
      * intros k Hk. rewrite Hout by lia. at_put_all.
      * intros P Ptmp Pa k Hk.
        destruct (Nat.lt_ge_cases k m) as [Hlt | Hge].
        -- rewrite Hout by lia. at_put_all; apply Pa; lia.
        -- apply HP; [exact Ptmp | | lia].
           intros k' Hk'. at_put_all. apply Pa. lia.
  - apply less_ge in E. apply Hstop.
    intros q Hq Hqn. specialize (Hmax q Hq Hqn). lia.
Qed.

Lemma heap_root_max (b : list Numpy.entry) (n : nat) :
  heap b 1 n ->
  forall k, 1 <= k -> k <= n -> snd (Numpy.at_ b k) <= snd (Numpy.at_ b 1).
Proof.
  intros Hh k. induction k as [k IH] using lt_wf_ind. intros Hk Hn.
  destruct (Nat.eq_dec k 1) as [-> | Hne]; [apply Nat.le_refl |].
  pose proof (Nat.div_mod_eq k 2) as Hdm.
  pose proof (Nat.mod_upper_bound k 2 ltac:(lia)) as Hmod.
  etransitivity; [apply (Hh (k / 2) k); unfold child; lia |].
  apply IH; lia.
Qed.

Lemma build_spec (n : nat) :
  forall l a,
    n < List.length a -> 2 * l <= n -> heap a (S l) n ->
    let r := Numpy.build l n a in
    List.length r = List.length a
    /\ Permutation r a
    /\ heap r 1 n
    /\ Numpy.at_ r 0 = Numpy.at_ a 0.
Proof.
  induction l as [| l IH]; intros a Hlen Hl Hh.
  - simpl. split; [reflexivity |]. split; [apply Permutation_refl |].
    split; [exact Hh | reflexivity].
  - cbn [Numpy.build].
    destruct (sift_spec n (S l) (Numpy.at_ a (S l)) n a (S l))
      as [L1 [P1 [H1 [O1 _]]]]; try lia.
    + intros p q Hp Hpi _ Hq Hqn. apply Hh; [lia | exact Hq | exact Hqn].
    + intros p q Hp Hc. unfold child in Hc. lia.
    + intros p Hp Hc. unfold child in Hc. lia.
    + rewrite put_same in P1.
      destruct (IH (Numpy.sift n n (Numpy.at_ a (S l)) a (S l) (S l + S l)))
        as [L2 [P2 [H2 O2]]]; [lia | lia | exact H1 |].
      split; [lia |]. split; [exact (perm_trans P2 P1) |].
      split; [exact H2 |]. rewrite O2. apply O1. lia.
Qed.

Lemma extract_spec (N : nat) :
  forall n a,
    n <= N -> N < List.length a -> heap a 1 n ->
    (forall k k', 1 <= k -> k <= k' -> k' <= N -> n < k' ->
                  snd (Numpy.at_ a k) <= snd (Numpy.at_ a k')) ->
    let r := Numpy.extract n a in
    List.length r = List.length a
    /\ Permutation r a
    /\ Numpy.at_ r 0 = Numpy.at_ a 0
    /\ (forall k k', 1 <= k -> k <= k' -> k' <= N ->
                     snd (Numpy.at_ r k) <= snd (Numpy.at_ r k')).
Proof.
  induction n as [| n IH]; intros a Hn Hlen Hh Hs.
  - simpl. split; [reflexivity |]. split; [apply Permutation_refl |].
    split; [reflexivity |]. intros k k' Hk Hkk Hk'. apply Hs; lia.
  - cbn [Numpy.extract]. destruct (Nat.ltb_spec 1 (S n)) as [H1 | H1].
    + pose proof (heap_root_max a (S n) Hh) as Hmax.
      set (tmp := Numpy.at_ a (S n)).
      set (a1 := Numpy.put (S n) (Numpy.at_ a 1) a).
      assert (La1 : List.length a1 = List.length a) by apply length_put.
      destruct (sift_spec n 1 tmp n a1 1) as [L1 [P1 [H2 [O1 HP]]]]; try lia.
      * intros p q Hp Hp1 Hq1 Hq Hqn. unfold a1, child in *. at_put_all.
        apply Hh; unfold child; lia.
      * intros p q Hp Hc. unfold child in Hc. lia.
      * intros p Hp Hc. unfold child in Hc. lia.
      * change (1 + 1) with 2 in *.
        set (r1 := Numpy.sift n n tmp a1 1 2) in *.
        assert (Hat : forall k, S n <= k ->
                        Numpy.at_ r1 k
                        = if (k =? S n)%nat then Numpy.at_ a 1 else Numpy.at_ a k).
        { intros k Hk. rewrite O1 by lia. unfold a1. at_put_all. }
        assert (Hbelow : forall (P : Numpy.entry -> Prop),
                   (forall k, 1 <= k -> k <= S n -> P (Numpy.at_ a k)) ->
                   forall k, 1 <= k -> k <= n -> P (Numpy.at_ r1 k)).
        { intros P HPa k Hk Hkn. apply HP; [apply HPa; lia | | lia].
          intros k0 Hk0. unfold a1. at_put_all. apply HPa; lia. }
        destruct (IH r1) as [L2 [P2 [O2 S2]]]; [lia | lia | exact H2 | |].
        -- intros k k' Hk Hkk Hk' Hnk'. rewrite (Hat k') by lia.
           destruct (Nat.eqb_spec k' (S n)) as [-> | Hne].
           ++ destruct (Nat.eq_dec k (S n)) as [-> | Hne'].
              ** rewrite Hat by lia. rewrite Nat.eqb_refl. apply Nat.le_refl.
              ** apply (Hbelow (fun x => snd x <= snd (Numpy.at_ a 1))); [| lia | lia].
                 intros k0 Hk0 Hk0n. apply Hmax; assumption.
           ++ destruct (Nat.le_gt_cases k n) as [Hle | Hgt].
              ** apply (Hbelow (fun x => snd x <= snd (Numpy.at_ a k'))); [| lia | lia].
                 intros k0 Hk0 Hk0n. apply Hs; lia.
              ** rewrite Hat by lia. destruct (Nat.eqb_spec k (S n)); apply Hs; lia.
        -- split; [lia |]. split; [| split; [| exact S2]].
           ++ apply (perm_trans P2). apply (perm_trans P1).
              apply (swap_perm 1 (S n) a); lia.
           ++ rewrite O2, O1 by lia. unfold a1. at_put_all.
    + split; [reflexivity |]. split; [apply Permutation_refl |].
      split; [reflexivity |]. intros k k' Hk Hkk Hk'.
      destruct (Nat.eq_dec k k') as [-> | Hne]; [apply Nat.le_refl |].
      apply Hs; lia.
Qed.

Lemma aheapsort_spec (a : list Numpy.entry) :
  Permutation (Numpy.aheapsort a) a /\ ascending (Numpy.aheapsort a).
Proof.
  unfold Numpy.aheapsort. set (n := List.length a). set (b := Numpy.blank :: a).
  assert (Lb : List.length b = S n) by reflexivity.
  pose proof (Nat.div_mod_eq n 2) as Hdm.
  pose proof (Nat.mod_upper_bound n 2 ltac:(lia)) as Hmod.
  destruct (build_spec n (Nat.div2 n) b) as [L1 [P1 [H1 O1]]].
  - lia.
  - rewrite Nat.div2_div. lia.
  - intros p q Hp Hq Hqn. rewrite Nat.div2_div in Hp. unfold child in Hq. lia.
  - set (b1 := Numpy.build (Nat.div2 n) n b) in *.
    destruct (extract_spec n n b1) as [L2 [P2 [O2 S2]]]; [lia | lia | exact H1 | |].
    + intros k k' Hk Hkk Hk' Hn. lia.
    + set (r := Numpy.extract n b1) in *.
      assert (Hr : r = Numpy.blank :: tl r).
      { destruct r as [| x r']; [simpl in L2; lia |].
        unfold Numpy.at_ in O2, O1. simpl in O2. rewrite O2, O1. reflexivity. }
      split.
      * apply (Permutation_cons_inv (a := Numpy.blank)). rewrite <- Hr.
        exact (perm_trans P2 P1).
      * apply ascending_by_index. intros i j Hij Hj.
        assert (Hlen : List.length (tl r) = n).
        { rewrite Hr in L2. simpl in L2. lia. }
        assert (Hat : forall k, Numpy.at_ (tl r) k = Numpy.at_ r (S k)).
        { intro k. rewrite Hr at 2. reflexivity. }
        rewrite !Hat. apply S2; lia.
Qed.

(** ** Quicksort *)

Lemma in_firstn_at (p : nat) (a : list Numpy.entry) (x : Numpy.entry) :
  In x (firstn p a) -> exists k, k < p /\ k < List.length a /\ x = Numpy.at_ a k.
Proof.
  intro H. destruct (In_nth _ _ Numpy.blank H) as [k [Hk Hx]].
  rewrite length_firstn in Hk. exists k.
  split; [lia |]. split; [lia |].
  rewrite <- Hx. unfold Numpy.at_. rewrite nth_firstn.
  destruct (Nat.ltb_spec k p); [reflexivity | lia].
Qed.

Lemma in_skipn_at (p : nat) (a : list Numpy.entry) (x : Numpy.entry) :
  In x (skipn p a) -> exists k, p <= k /\ k < List.length a /\ x = Numpy.at_ a k.
Proof.
  intro H. destruct (In_nth _ _ Numpy.blank H) as [k [Hk Hx]].
  rewrite length_skipn in Hk. exists (p + k).
  split; [lia |]. split; [lia |].
  rewrite <- Hx. unfold Numpy.at_. rewrite nth_skipn. reflexivity.
Qed.

Lemma split_at (p : nat) (a : list Numpy.entry) :
  p < List.length a ->
  a = firstn p a ++ Numpy.at_ a p :: skipn (S p) a.
Proof.
  unfold Numpy.at_. revert p. induction a as [| x a IH]; intros p Hp; simpl in Hp.
  - lia.
  - destruct p as [| p]; simpl; [reflexivity |].
    f_equal. apply IH. lia.
Qed.

(** Two sorted parts around a pivot that is between them. *)
Lemma ascending_around (l r : list Numpy.entry) (x : Numpy.entry) :
  ascending l -> ascending r ->
  (forall y, In y l -> snd y <= snd x) ->
  (forall y, In y r -> snd x <= snd y) ->
  ascending (l ++ x :: r).
Proof.
  intros Hl Hr Hlx Hxr. apply StronglySorted_app_intro.
  - exact Hl.
  - constructor; [exact Hr |]. rewrite Forall_forall. exact Hxr.
  - intros y z Hy [<- | Hz]; [apply Hlx; exact Hy |].
    specialize (Hlx y Hy). specialize (Hxr z Hz). lia.
Qed.

Lemma aquicksort_from_spec :
  forall fuel popped cdepth a,
    List.length a <= fuel ->
    Permutation (Numpy.aquicksort_from fuel popped cdepth a) a
    /\ ascending (Numpy.aquicksort_from fuel popped cdepth a).
Proof.
  induction fuel as [| f IH]; intros popped cdepth a Hf.
  - destruct a; [| simpl in Hf; lia]. simpl. split; constructor.
  - cbn [Numpy.aquicksort_from].
    destruct (popped && (cdepth <? 0)%Z); [apply aheapsort_spec |].
    destruct (Nat.ltb_spec Numpy.SMALL_QUICKSORT (List.length a - 1)) as [Hbig | _];
      [| split; [apply insertion_perm | apply insertion_ascending]].
    unfold Numpy.SMALL_QUICKSORT in Hbig.
    destruct (Numpy.partition a) as [a' p] eqn:E.
    apply partition_spec in E; [| lia].
    destruct E as [Pa [Hp0 [Hp1 [Hlow Hhigh]]]].
    pose proof (Permutation_length Pa) as La.
    assert (Hpart : forall b1 b2,
               Permutation (Numpy.aquicksort_from f b1 (cdepth - 1) (firstn p a')
                            ++ Numpy.at_ a' p
                               :: Numpy.aquicksort_from f b2 (cdepth - 1) (skipn (S p) a'))
                           a
               /\ ascending (Numpy.aquicksort_from f b1 (cdepth - 1) (firstn p a')
                             ++ Numpy.at_ a' p
                                :: Numpy.aquicksort_from f b2 (cdepth - 1) (skipn (S p) a'))).
    { intros b1 b2.
      destruct (IH b1 (cdepth - 1)%Z (firstn p a')) as [P1 S1];
        [rewrite length_firstn; lia |].
      destruct (IH b2 (cdepth - 1)%Z (skipn (S p) a')) as [P2 S2];
        [rewrite length_skipn; lia |].
      split.
      - apply (perm_trans
                 (l' := firstn p a' ++ Numpy.at_ a' p :: skipn (S p) a')).
        + apply Permutation_app; [exact P1 |]. apply perm_skip. exact P2.
        + rewrite <- split_at by lia. exact Pa.
      - apply ascending_around; [exact S1 | exact S2 | |].
        + intros y Hy. apply (Permutation_in _ P1) in Hy.
          apply in_firstn_at in Hy. destruct Hy as [k [Hk [_ ->]]].
          apply Hlow. exact Hk.
        + intros y Hy. apply (Permutation_in _ P2) in Hy.
          apply in_skipn_at in Hy. destruct Hy as [k [Hk [Hkn ->]]].
          apply Hhigh; lia. }
    destruct (p <? List.length a - 1 - p)%nat; apply Hpart.
Qed.

Lemma aquicksort_perm (a : list Numpy.entry) : Permutation (Numpy.aquicksort a) a.
Proof. apply aquicksort_from_spec. apply Nat.le_refl. Qed.

Lemma aquicksort_ascending (a : list Numpy.entry) : ascending (Numpy.aquicksort a).
Proof. apply aquicksort_from_spec. apply Nat.le_refl. Qed.

(** An array of at most sixteen entries is sorted by insertion alone. *)
Lemma aquicksort_short (a : list Numpy.entry) :
  List.length a <= 16 -> Numpy.aquicksort a = Numpy.insertion a.
Proof.
  intro H. unfold Numpy.aquicksort.
  destruct a as [| x a]; [reflexivity |].
  cbn [List.length Numpy.aquicksort_from].
  assert (Hd : (Numpy.depth_limit (S (List.length a)) <? 0)%Z = false).
  { apply Z.ltb_ge. unfold Numpy.depth_limit. lia. }
  rewrite Hd. cbn [andb].
  destruct (Nat.ltb_spec Numpy.SMALL_QUICKSORT (S (List.length a) - 1)) as [Hbig | _];
    [| reflexivity].
  unfold Numpy.SMALL_QUICKSORT in Hbig. simpl in H. lia.
Qed.

(** ** The descending sort *)

Lemma sort_values_desc_perm (l : Series.t) :
  Permutation l (Series.sort_values_desc l).
Proof.
  unfold Series.sort_values_desc.
  apply (perm_trans (Permutation_rev l)).
  apply (perm_trans (Permutation_sym (aquicksort_perm (rev l)))).
  apply Permutation_rev.
Qed.

Lemma sort_values_desc_In (z : string * nat) (l : Series.t) :
  In z (Series.sort_values_desc l) <-> In z l.
Proof.
  split; apply Permutation_in;
    [apply Permutation_sym |]; apply sort_values_desc_perm.
Qed.

Lemma list_sum_perm (l l' : list nat) :
  Permutation l l' -> list_sum l = list_sum l'.
Proof. induction 1; simpl; lia. Qed.

Lemma sort_values_desc_sum (l : Series.t) :
  list_sum (map snd (Series.sort_values_desc l)) = list_sum (map snd l).
Proof.
  symmetry. apply list_sum_perm. apply Permutation_map. apply sort_values_desc_perm.
Qed.

Lemma sort_values_desc_descending (l : Series.t) :
  descending (Series.sort_values_desc l).
Proof.
  unfold Series.sort_values_desc, descending.
  apply (StronglySorted_rev (fun x y : Numpy.entry => snd x <= snd y)).
  apply aquicksort_ascending.
Qed.

(** Up to sixteen entries the sort is the insertion sort alone: every
    entry, from the last to the first, is carried past the greater counts
    only. *)
Lemma sort_values_desc_short (l : Series.t) :
  List.length l <= 16 ->
  Series.sort_values_desc l = fold_right Numpy.shift [] l.
Proof.
  intro H. unfold Series.sort_values_desc.
  rewrite aquicksort_short by (rewrite length_rev; exact H).
  unfold Numpy.insertion. rewrite rev_involutive.
  rewrite <- (fold_left_rev_right Numpy.shift), rev_involutive. reflexivity.
Qed.

Section Ranked.

Variable col : list (option string).

Let entered_before (p q : string * nat) : Prop :=
  first_index (fst p) col < first_index (fst q) col.

(** Carrying an entry that was entered before all of [s] into [s] keeps
    [s] ranked: it passes the larger counts and stops at the first count
    that is not larger, ahead of its ties. *)
Lemma shift_ranked (x : string * nat) (s : Series.t) :
  StronglySorted (ranked_before col) s ->
  Forall (entered_before x) s ->
  StronglySorted (ranked_before col) (Numpy.shift x s).
Proof.
  induction s as [| y s IH]; simpl; intros Hs Hx.
  - constructor; constructor.
  - apply StronglySorted_inv in Hs. destruct Hs as [Hs Hy].
    inversion Hx as [| ? ? Hxy Hxs]; subst.
    destruct (Numpy.less x y) eqn:E.
    + apply less_lt in E. constructor; [apply IH; assumption |].
      rewrite Forall_forall in *. intros z Hz.
      apply (Permutation_in _ (shift_perm x s)) in Hz. destruct Hz as [<- | Hz].
      * left. exact E.
      * apply Hy. exact Hz.
    + apply less_ge in E. constructor; [constructor; assumption |].
      constructor.
      * unfold ranked_before, entered_before in *. lia.
      * rewrite Forall_forall in *. intros z Hz.
        specialize (Hy z Hz). specialize (Hxs z Hz).
        unfold ranked_before, entered_before in *. lia.
Qed.

Lemma fold_shift_ranked (l : Series.t) :
  StronglySorted entered_before l ->
  StronglySorted (ranked_before col) (fold_right Numpy.shift [] l).
Proof.
  induction l as [| x r IH]; simpl; intro Hs; [constructor |].
  apply StronglySorted_inv in Hs. destruct Hs as [Hs Hx].
  apply shift_ranked; [apply IH; exact Hs |].
  rewrite Forall_forall in *. intros z Hz. apply Hx.
  clear - Hz. induction r as [| y r IH]; simpl in Hz; [contradiction |].
  apply (Permutation_in _ (shift_perm y _)) in Hz.
  destruct Hz as [<- | Hz]; [left; reflexivity | right; apply IH; exact Hz].
Qed.

(** With at most sixteen entries the counts stand by count, ties in
    order of entry. *)
Lemma value_counts_ranked :
  List.length (Series.tally col) <= 16 ->
  StronglySorted (ranked_before col) (Series.value_counts col).
Proof.
  intro H. unfold Series.value_counts. rewrite sort_values_desc_short by exact H.
  apply fold_shift_ranked.
  apply (StronglySorted_of_map fst (fun a b => first_index a col < first_index b col)).
  apply tally_first_occurrence.
Qed.

Lemma value_counts_descending : descending (Series.value_counts col).
Proof. apply sort_values_desc_descending. Qed.

Lemma value_counts_sum :
  list_sum (map snd (Series.value_counts col)) <= List.length col.
Proof.
  unfold Series.value_counts. rewrite sort_values_desc_sum. apply tally_sum.
Qed.

Lemma value_counts_positive :
  Forall (fun p => 1 <= snd p) (Series.value_counts col).
Proof.
  rewrite Forall_forall. intros z Hz.
  unfold Series.value_counts in Hz. rewrite sort_values_desc_In in Hz.
  pose proof (tally_positive col) as H. rewrite Forall_forall in H.
  apply H. exact Hz.
Qed.

End Ranked.

Lemma list_sum_firstn (n : nat) (l : list nat) :
  list_sum (firstn n l) <= list_sum l.
Proof.
  revert n. induction l as [| a l IH]; intros [| n]; simpl; try lia.
  specialize (IH n). lia.
Qed.

Lemma col_Ok (name : string) (df : DataFrame.t) (c : list (option string)) :
  DataFrame.col name df = Ok c -> c = map (PyDict.get name) (DataFrame.rows df).
Proof.
  unfold DataFrame.col.
  destruct (existsb (String.eqb name) (DataFrame.columns df)); intro H;
    [injection H as <-; reflexivity | discriminate H].
Qed.

Lemma top_openings_Ok (df : DataFrame.t) (top : Series.t) :
  top_openings df = Ok top ->
  top = Series.head top_n
          (Series.value_counts (map (PyDict.get "Opening") (DataFrame.rows df))).
Proof.
  unfold top_openings. intro H. bind_inv H.
  apply col_Ok in Ha. subst a. injection H as <-. reflexivity.
Qed.

(** ** The rows of one group *)

Lemma zip_rows_length (ms ps os : list string) (cs : list nat) :
  List.length (zip_rows ms ps os cs) <= List.length ms.
Proof.
  revert ps os cs. induction ms as [| m ms IH]; intros [| p ps] [| o os] [| c cs];
    simpl; try lia.
  specialize (IH ps os cs). lia.
Qed.

Lemma zip_rows_sum (ms ps os : list string) (cs : list nat) :
  sum_played (zip_rows ms ps os cs) <= list_sum cs.
Proof.
  unfold sum_played.
  revert ps os cs. induction ms as [| m ms IH]; intros [| p ps] [| o os] [| c cs];
    simpl; try lia.
  specialize (IH ps os cs). lia.
Qed.

Lemma zip_rows_positive (ms ps os : list string) (cs : list nat) :
  Forall (fun c => 1 <= c) cs ->
  Forall (fun r => 1 <= games_played r) (zip_rows ms ps os cs).
Proof.
  revert ps os cs. induction ms as [| m ms IH]; intros [| p ps] [| o os] [| c cs] H;
    simpl; try constructor.
  - simpl. inversion H; assumption.
  - apply IH. inversion H; assumption.
Qed.

Lemma frame_of_columns_Ok (ms ps os : list string) (cs : list nat) (rows : list Row) :
  frame_of_columns ms ps os cs = Ok rows -> rows = zip_rows ms ps os cs.
Proof.
  unfold frame_of_columns.
  destruct (_ && _); intro H; [injection H as <-; reflexivity | discriminate H].
Qed.

Lemma openings_frame_Ok (mode color : string) (df : DataFrame.t) (rows : list Row) :
  openings_frame mode color df = Ok rows ->
  List.length rows <= top_n
  /\ sum_played rows <= List.length (DataFrame.rows df)
  /\ Forall (fun r => 1 <= games_played r) rows.
Proof.
  unfold openings_frame. intro H. bind_inv H.
  apply top_openings_Ok in Ha. apply frame_of_columns_Ok in H. subst rows a.
  set (col := map (PyDict.get "Opening") (DataFrame.rows df)).
  split; [| split].
  - etransitivity; [apply zip_rows_length |]. rewrite repeat_length. reflexivity.
  - etransitivity; [apply zip_rows_sum |].
    unfold Series.values, Series.head. rewrite <- firstn_map.
    etransitivity; [apply list_sum_firstn |].
    etransitivity; [apply value_counts_sum |].
    unfold col. rewrite length_map. reflexivity.
  - apply zip_rows_positive.
    unfold Series.values, Series.head. rewrite <- firstn_map.
    apply Forall_firstn. apply Forall_map. apply value_counts_positive.
Qed.

(** C5.  A group whose request succeeds and whose text parses adds at
    most [top_n] rows to the table, and their counts add up to at most the
    number of records of the group's corpus. *)
Theorem C5_group_bounded :
  forall (requests_get : string -> response) (username mode color : string)
         (s s' : loop_state) (df : DataFrame.t),
    status_code (requests_get (games_url username color mode)) = 200%Z ->
    pgn_to_dataframe (text (requests_get (games_url username color mode))) = Ok df ->
    group_step requests_get username mode color s = Ok s' ->
    exists rows,
      favorite_openings_df s' = favorite_openings_df s ++ rows
      /\ List.length rows <= top_n
      /\ sum_played rows <= List.length (DataFrame.rows df).
Proof.
  intros rg u mode color s s' df Hst Hdf Hstep.
  unfold group_step in Hstep. rewrite Hst, Hdf in Hstep. simpl in Hstep.
  destruct (DataFrame.empty df); simpl in Hstep.
  - injection Hstep as <-. exists []. rewrite app_nil_r.
    repeat split; simpl; unfold sum_played; simpl; lia.
  - bind_inv Hstep. injection Hstep as <-. exists a. simpl.
    apply openings_frame_Ok in Ha. destruct Ha as [Hlen [Hsum _]].
    repeat split; assumption.
Qed.

Lemma C5_group_bounded_witness :
  exists s' rows,
    group_step (Sample.always Sample.season) "user" "blitz" "white" (mkState [] [])
    = Ok s'
    /\ favorite_openings_df s' = [] ++ rows
    /\ List.length rows <= top_n
    /\ sum_played rows <= List.length (DataFrame.rows Sample.season_frame).
Proof.
  assert (Hdf : pgn_to_dataframe
                  (text (Sample.always Sample.season (games_url "user" "white" "blitz")))
                = Ok Sample.season_frame)
    by (vm_compute; reflexivity).
  assert (Hstep : group_step (Sample.always Sample.season) "user" "blitz" "white"
                    (mkState [] [])
                  = Ok (mkState
                          [mkRow "blitz" "white" "Sicilian Defense" 2;
                           mkRow "blitz" "white" "Italian Game" 2;
                           mkRow "blitz" "white" "Ruy Lopez" 1;
                           mkRow "blitz" "white" "French Defense" 1;
                           mkRow "blitz" "white" "Caro-Kann Defense" 1] []))
    by (vm_compute; reflexivity).
  destruct (C5_group_bounded (Sample.always Sample.season) "user" "blitz" "white"
              _ _ _ eq_refl Hdf Hstep) as [rows H].
  eexists. exists rows. split; [exact Hstep | exact H].
Defined.

(** ** Counts in the table *)

Lemma group_step_positive rg u mode color s s' :
  counts_positive s -> group_step rg u mode color s = Ok s' -> counts_positive s'.
Proof.
  unfold group_step, counts_positive. intros Hs Hstep.
  destruct (status_code _ =? 200)%Z.
  - bind_inv Hstep. destruct (DataFrame.empty a); simpl in Hstep.
    + injection Hstep as <-. exact Hs.
    + bind_inv Hstep. injection Hstep as <-. simpl.
      apply Forall_app. split; [exact Hs |].
      apply openings_frame_Ok in Ha0. apply Ha0.
  - injection Hstep as <-. exact Hs.
Qed.

Lemma run_groups_positive rg u pairs :
  forall s s',
    counts_positive s -> run_groups rg u pairs s = Ok s' -> counts_positive s'.
Proof.
  induction pairs as [| [m c] r IH]; simpl; intros s s' Hs Hrun.
  - injection Hrun as <-. exact Hs.
  - bind_inv Hrun. apply (IH a s'); [| exact Hrun].
    apply (group_step_positive rg u m c s a Hs Ha).
Qed.

(** C10.  Every row of the table returned by the ranking holds a count of
    at least one. *)
Theorem C10_counts_at_least_one :
  forall (requests_get : string -> response) (username : string)
         (game_modes : list string) (s : loop_state),
    get_most_favorite_openings requests_get username game_modes = Ok s ->
    Forall (fun r => 1 <= games_played r) (favorite_openings_df s).
Proof.
  intros rg u game_modes s H.
  unfold get_most_favorite_openings in H. rewrite for_modes_run_groups in H.
  apply (run_groups_positive rg u (mode_color_pairs game_modes) (mkState [] []) s);
    [constructor | exact H].
Qed.

Lemma C10_counts_at_least_one_witness :
  exists s,
    get_most_favorite_openings (Sample.always Sample.season) "user" ["blitz"] = Ok s
    /\ List.length (favorite_openings_df s) = 10
    /\ Forall (fun r => 1 <= games_played r) (favorite_openings_df s).
Proof.
  eexists. split; [vm_compute; reflexivity |]. split; [reflexivity |].
  apply (C10_counts_at_least_one (Sample.always Sample.season) "user" ["blitz"]).
  vm_compute. reflexivity.
Defined.

(** ** Percentages *)

#[local] Set Warnings "-inexact-float".

Example percentage_third : Metrics.percentage 1 3 = 33.3%float.
Proof. vm_compute. reflexivity. Qed.

Example percentage_two_thirds : Metrics.percentage 2 3 = 66.7%float.
Proof. vm_compute. reflexivity. Qed.

Example percentage_eighth : Metrics.percentage 1 8 = 12.5%float.
Proof. vm_compute. reflexivity. Qed.

Example percentage_all : Metrics.percentage 7 7 = 100%float.
Proof. vm_compute. reflexivity. Qed.

(** The rounding to the nearest integer is off by at most a half. *)
Lemma div_half_even_nearest (n d : Z) :
  (0 < d)%Z ->
  (2 * Z.abs (n - Metrics.div_half_even n d * d) <= d)%Z.
Proof.
  intro Hd. unfold Metrics.div_half_even.
  pose proof (Z.div_mod n d ltac:(lia)) as Hdm.
  pose proof (Z.mod_pos_bound n d Hd) as Hb.
  destruct (Z.compare_spec (2 * (n mod d)) d) as [He | Hl | Hg];
    [destruct (Z.even (n / d)) |..]; nia.
Qed.

(** The tenths differ from ten times the value by at most a half. *)
Lemma tenths_nearest (m : positive) (e : Z) :
  (e < 0)%Z ->
  (2 * Z.abs (10 * Z.pos m - Metrics.tenths m e * 2 ^ (- e)) <= 2 ^ (- e))%Z.
Proof.
  intro He. unfold Metrics.tenths.
  destruct (Z.leb_spec 0 e) as [H | _]; [lia |].
  apply div_half_even_nearest. apply Z.pow_pos_nonneg; lia.
Qed.

Lemma positive_truthy (x : float) :
  (0 <? x)%float = true -> Metrics.truthy x = true.
Proof.
  unfold Metrics.truthy. rewrite ltb_spec, eqb_spec.
  change (Prim2SF 0) with (S754_zero false).
  destruct (Prim2SF x) as [s | s | | s m e]; try destruct s; simpl; intro H;
    try discriminate H; reflexivity.
Qed.

(** At a tie the rounding to the nearest integer takes the even one. *)
Lemma div_half_even_tie (n d : Z) :
  (0 < d)%Z ->
  (2 * Z.abs (n - Metrics.div_half_even n d * d) = d)%Z ->
  Z.even (Metrics.div_half_even n d) = true.
Proof.
  intros Hd. unfold Metrics.div_half_even.
  pose proof (Z.div_mod n d ltac:(lia)) as Hdm.
  pose proof (Z.mod_pos_bound n d Hd) as Hb.
  destruct (Z.compare_spec (2 * (n mod d)) d) as [He | Hl | Hg].
  - destruct (Z.even (n / d)) eqn:E; intros _; [exact E |].
    rewrite Z.even_add, E. reflexivity.
  - intro H. exfalso. nia.
  - intro H. exfalso. nia.
Qed.

Lemma tenths_nearest_tenths (m : positive) (e : Z) :
  Metrics.nearest_tenths m e (Metrics.tenths m e).
Proof.
  unfold Metrics.nearest_tenths. cbv zeta.
  destruct (Z.leb_spec 0 e) as [He | He].
  - unfold Metrics.tenths. destruct (Z.leb_spec 0 e) as [_ | H]; [| lia].
    rewrite (Z.max_l 0 (- e)), (Z.max_r 0 e) by lia.
    change (2 ^ 0)%Z with 1%Z. rewrite Z.mul_1_r, Z.sub_diag. simpl.
    split; [lia | intro H; lia].
  - rewrite (Z.max_r 0 (- e)), (Z.max_l 0 e) by lia.
    change (2 ^ 0)%Z with 1%Z. rewrite Z.mul_1_r.
    split; [apply tenths_nearest; exact He |].
    unfold Metrics.tenths. destruct (Z.leb_spec 0 e) as [H | _]; [lia |].
    apply div_half_even_tie. apply Z.pow_pos_nonneg; lia.
Qed.

(** [round1] rounds to the nearest tenth of the double it is given. *)
Lemma round1_rounded (x : float) : Metrics.rounded_to_tenth x (Metrics.round1 x).
Proof.
  unfold Metrics.round1.
  destruct (Prim2SF x) as [s | s | | s m e] eqn:E;
    try (apply Metrics.rounded_special; intros s' m' e' H; congruence).
  destruct (562949953421312 <=? abs x)%float eqn:L.
  - exact (Metrics.rounded_large x s m e E L).
  - exact (Metrics.rounded_small x s m e (Metrics.tenths m e) E L
             (tenths_nearest_tenths m e)).
Qed.

(** 23 wins in 80 games are 28.75 percent, which rounds to 28.8; the
    quotient computed in doubles is just below 28.75, and the program
    shows 28.7. *)
Lemma C8_double_below_the_tie :
  Metrics.percent_metrics 80 23 34 23
  = (Metrics.Percent 28.7%float, Metrics.Percent 42.5%float, Metrics.Percent 28.7%float)
  /\ Metrics.claimed_percentage 23 80 = 28.8%float
  /\ Metrics.percentage 23 80 <> Metrics.claimed_percentage 23 80.
Proof.
  split; [vm_compute; reflexivity |]. split; [vm_compute; reflexivity |].
  intro H. apply (f_equal (fun x => (x =? 28.7)%float)) in H.
  vm_compute in H. discriminate H.
Qed.

(** C8.  With a positive number of games each of the three percentages is
    the double [count / games * 100] rounded to one decimal: the tenth
    nearest to the value of that double, which can be a tenth away from
    the rounding of the quotient itself.  With zero games all three are
    given no value, not a percentage. *)
Theorem C8_percent_rounded_from_double :
  forall games wins draws losses : float,
    ((0 <? games)%float = true ->
     exists pw pd pl : float,
       Metrics.percent_metrics games wins draws losses
       = (Metrics.Percent pw, Metrics.Percent pd, Metrics.Percent pl)
       /\ Metrics.rounded_to_tenth (wins / games * 100)%float pw
       /\ Metrics.rounded_to_tenth (draws / games * 100)%float pd
       /\ Metrics.rounded_to_tenth (losses / games * 100)%float pl)
    /\ ((games =? 0)%float = true ->
        Metrics.percent_metrics games wins draws losses
        = (Metrics.NoValue, Metrics.NoValue, Metrics.NoValue)).
Proof.
  intros games wins draws losses. unfold Metrics.percent_metrics. split; intro H.
  - rewrite (positive_truthy games H).
    exists (Metrics.percentage wins games), (Metrics.percentage draws games),
           (Metrics.percentage losses games).
    split; [reflexivity |]. unfold Metrics.percentage.
    repeat split; apply round1_rounded.
  - unfold Metrics.truthy. rewrite H. reflexivity.
Qed.

Lemma C8_percent_rounded_from_double_witness :
  Metrics.percent_metrics 80 23 34 23
  = (Metrics.Percent 28.7%float, Metrics.Percent 42.5%float, Metrics.Percent 28.7%float)
  /\ Metrics.rounded_to_tenth (23 / 80 * 100)%float 28.7%float
  /\ Metrics.percent_metrics 0 0 0 0
     = (Metrics.NoValue, Metrics.NoValue, Metrics.NoValue).
Proof.
  destruct (proj1 (C8_percent_rounded_from_double 80 23 34 23) eq_refl)
    as [pw [pd [pl [E [Hw _]]]]].
  assert (E' : Metrics.percent_metrics 80 23 34 23
               = (Metrics.Percent 28.7%float, Metrics.Percent 42.5%float,
                  Metrics.Percent 28.7%float))
    by (vm_compute; reflexivity).
  rewrite E' in E. injection E as <- _ _.
  split; [exact E' |]. split; [exact Hw |].
  apply (proj2 (C8_percent_rounded_from_double 0 0 0 0)). reflexivity.
Defined.


(** * Further properties of the parser *)

(** ** Strings *)

Lemma append_nil_r (s : string) : (s ++ "")%string = s.
Proof. induction s as [| c s IH]; simpl; [reflexivity | rewrite IH; reflexivity]. Qed.

Lemma append_assoc (a b c : string) : ((a ++ b) ++ c)%string = (a ++ (b ++ c))%string.
Proof. induction a as [| x a IH]; simpl; [reflexivity | rewrite IH; reflexivity]. Qed.

Lemma contains_eq (sub s : string) :
  PyStr.contains sub s
  = if prefix sub s then true
    else match s with
         | EmptyString => false
         | String _ s' => PyStr.contains sub s'
         end.
Proof. destruct s; reflexivity. Qed.

Lemma split_from_cons (sep cur : string) (c : ascii) (s : string) :
  PyStr.split_from sep 0 cur (String c s)
  = if prefix sep (String c s)
    then cur :: PyStr.split_from sep (String.length sep - 1) EmptyString s
    else PyStr.split_from sep 0 (cur ++ String c EmptyString) s.
Proof. reflexivity. Qed.

(** Without an occurrence of the separator the split is the text itself. *)
Lemma split_from_no_match (sep s : string) :
  PyStr.contains sep s = false ->
  forall cur, PyStr.split_from sep 0 cur s = [(cur ++ s)%string].
Proof.
  induction s as [| c s IH]; intros H cur.
  - simpl. rewrite append_nil_r. reflexivity.
  - rewrite contains_eq in H. rewrite split_from_cons.
    destruct (prefix sep (String c s)); [discriminate H |].
    rewrite (IH H), append_assoc. reflexivity.
Qed.

(** ** Texts without a separator *)

(** X1.  A text in which the block separator does not occur parses to the frame
    without records, whatever it holds: its only segment is the last one. *)
Theorem no_separator_no_records :
  forall pgn_file : string,
    PyStr.contains block_sep pgn_file = false ->
    pgn_to_dataframe pgn_file = Ok (DataFrame.of_records []).
Proof.
  intros pgn_file H. unfold pgn_to_dataframe, game_blocks, PyStr.split.
  rewrite (split_from_no_match _ _ H). reflexivity.
Qed.

Lemma no_separator_no_records_witness :
  pgn_to_dataframe (Sample.game "Italian Game" "1-0" ++ PyStr.nl ++ "[Foo]")
  = Ok (DataFrame.of_records []).
Proof. apply no_separator_no_records. vm_compute. reflexivity. Defined.

(** ** One record per block *)

Lemma parse_games_length (game_lines : list string) (games_data : list PyDict.t) :
  parse_games game_lines = Ok games_data ->
  List.length games_data = List.length game_lines.
Proof.
  revert games_data. induction game_lines as [| g r IH]; simpl; intros games_data H.
  - injection H as <-. reflexivity.
  - bind_inv H. bind_inv H. injection H as <-. simpl. f_equal. apply IH. exact Ha0.
Qed.

(** X2.  When the parse returns, the frame has one row for every segment of the
    split but the last, a segment without any tag line included. *)
Theorem one_record_per_block :
  forall (pgn_file : string) (df : DataFrame.t),
    pgn_to_dataframe pgn_file = Ok df ->
    List.length (DataFrame.rows df)
    = List.length (PyStr.split block_sep pgn_file) - 1.
Proof.
  intros pgn_file df H. unfold pgn_to_dataframe in H. bind_inv H.
  injection H as <-. simpl.
  rewrite (parse_games_length _ _ Ha). apply game_blocks_drops_last.
Qed.

Lemma one_record_per_block_witness :
  List.length (DataFrame.rows Sample.season_frame)
  = List.length (PyStr.split block_sep Sample.season) - 1.
Proof.
  apply (one_record_per_block Sample.season Sample.season_frame).
  vm_compute. reflexivity.
Defined.

(** ** Blocks without tag lines *)

Lemma parse_lines_skipped (lines : list string) (d : PyDict.t) :
  Forall (fun l => PyStr.contains "[" l = false \/ PyStr.contains "]" l = false) lines ->
  parse_lines d lines = Ok d.
Proof.
  induction 1 as [| l r [Hl | Hl] _ IH]; simpl; [reflexivity | |].
  - rewrite (parse_line_no_open d l Hl). exact IH.
  - rewrite (parse_line_no_close d l Hl). exact IH.
Qed.

(** X3.  A block none of whose lines holds both brackets gives the empty
    record: it is kept as a record without tags, not left out. *)
Theorem untagged_block_empty_record :
  forall game : string,
    Forall (fun l => PyStr.contains "[" l = false \/ PyStr.contains "]" l = false)
           (PyStr.split PyStr.nl game) ->
    parse_game game = Ok [].
Proof. intros game H. apply parse_lines_skipped. exact H. Qed.

Lemma untagged_block_empty_record_witness :
  parse_game ("1. e4 e5 2. Nf3 Nc6" ++ PyStr.nl ++ "3. Bb5 a6 1-0") = Ok [].
Proof.
  apply untagged_block_empty_record.
  change (PyStr.split PyStr.nl ("1. e4 e5 2. Nf3 Nc6" ++ PyStr.nl ++ "3. Bb5 a6 1-0"))
    with ["1. e4 e5 2. Nf3 Nc6"; "3. Bb5 a6 1-0"].
  constructor; [left; vm_compute; reflexivity |].
  constructor; [left; vm_compute; reflexivity | constructor].
Defined.

(** ** The first failing block *)

Lemma parse_games_app (l1 l2 : list string) :
  parse_games (l1 ++ l2)
  = bind (parse_games l1)
         (fun a => bind (parse_games l2) (fun b => Ok (a ++ b))).
Proof.
  induction l1 as [| g r IH]; simpl.
  - destruct (parse_games l2); reflexivity.
  - destruct (parse_game g); simpl; [| reflexivity].
    rewrite IH. destruct (parse_games r); simpl; [| reflexivity].
    destruct (parse_games l2); reflexivity.
Qed.

Lemma parse_games_all_Ok (l : list string) :
  Forall (fun g => exists r, parse_game g = Ok r) l ->
  exists rs, parse_games l = Ok rs.
Proof.
  induction 1 as [| g l [r Hr] _ [rs Hrs]]; simpl.
  - exists []. reflexivity.
  - rewrite Hr, Hrs. simpl. eexists. reflexivity.
Qed.

(** X4.  The records are all or nothing: when a block raises and the blocks
    before it parse, the whole text raises that exception, and the records
    of the other blocks are lost with it. *)
Theorem first_failing_block_aborts :
  forall (pgn_file : string) (before : list string) (game : string)
         (after : list string) (e : exn),
    game_blocks pgn_file = before ++ game :: after ->
    Forall (fun g => exists r, parse_game g = Ok r) before ->
    parse_game game = Raise e ->
    pgn_to_dataframe pgn_file = Raise e.
Proof.
  intros pgn_file before game after e Hblocks Hbefore Hgame.
  unfold pgn_to_dataframe. rewrite Hblocks, parse_games_app.
  destruct (parse_games_all_Ok before Hbefore) as [rs Hrs].
  rewrite Hrs. simpl. rewrite Hgame. reflexivity.
Qed.

Lemma first_failing_block_aborts_witness :
  pgn_to_dataframe
    (Sample.export [Sample.game "Italian Game" "1-0"; "[Foo]";
                    Sample.game "Ruy Lopez" "0-1"])
  = Raise ValueError.
Proof.
  apply (first_failing_block_aborts _
           [Sample.game "Italian Game" "1-0"] "[Foo]"
           [Sample.game "Ruy Lopez" "0-1"]).
  - vm_compute. reflexivity.
  - constructor; [eexists; vm_compute; reflexivity | constructor].
  - vm_compute. reflexivity.
Defined.

(** ** Keys of a record *)

Lemma set_keys_in (k v : string) (d : PyDict.t) :
  In k (PyDict.keys d) -> PyDict.keys (PyDict.set k v d) = PyDict.keys d.
Proof.
  unfold PyDict.keys.
  induction d as [| [k' v'] r IH]; simpl; intro H; [contradiction |].
  destruct (String.eqb k k') eqn:E; simpl.
  - apply String.eqb_eq in E. subst k'. reflexivity.
  - f_equal. apply IH. destruct H as [H | H]; [| exact H].
    subst k'. rewrite String.eqb_refl in E. discriminate E.
Qed.

Lemma set_keys_notin (k v : string) (d : PyDict.t) :
  ~ In k (PyDict.keys d) -> PyDict.keys (PyDict.set k v d) = PyDict.keys d ++ [k].
Proof.
  unfold PyDict.keys.
  induction d as [| [k' v'] r IH]; simpl; intro H; [reflexivity |].
  destruct (String.eqb k k') eqn:E; simpl.
  - apply String.eqb_eq in E. subst k'. exfalso. apply H. left. reflexivity.
  - f_equal. apply IH. intro Hin. apply H. right. exact Hin.
Qed.

Lemma set_NoDup (k v : string) (d : PyDict.t) :
  NoDup (PyDict.keys d) -> NoDup (PyDict.keys (PyDict.set k v d)).
Proof.
  intro H. destruct (in_dec string_dec k (PyDict.keys d)) as [Hin | Hn].
  - rewrite set_keys_in by exact Hin. exact H.
  - rewrite set_keys_notin by exact Hn.
    apply (Permutation_NoDup (Permutation_cons_append (PyDict.keys d) k)).
    constructor; assumption.
Qed.

Lemma parse_lines_NoDup (lines : list string) :
  forall d rec,
    NoDup (PyDict.keys d) -> parse_lines d lines = Ok rec -> NoDup (PyDict.keys rec).
Proof.
  induction lines as [| l r IH]; simpl; intros d rec Hd H.
  - injection H as <-. exact Hd.
  - bind_inv H. apply (IH a rec); [| exact H].
    destruct (parse_line_cases l) as [Hskip | [[k [v Hset]] | [e He]]].
    + rewrite Hskip in Ha. injection Ha as <-. exact Hd.
    + rewrite Hset in Ha. injection Ha as <-. apply set_NoDup. exact Hd.
    + rewrite He in Ha. discriminate Ha.
Qed.

(** X5.  No key stands twice in a parsed record, however often its tag is
    repeated in the block. *)
Theorem parsed_keys_unique :
  forall (game : string) (rec : PyDict.t),
    parse_game game = Ok rec -> NoDup (PyDict.keys rec).
Proof.
  intros game rec H. apply (parse_lines_NoDup _ [] rec (NoDup_nil _) H).
Qed.

Lemma parsed_keys_unique_witness :
  NoDup (PyDict.keys [("Opening", "Sicilian Defense"); ("Result", "1-0")]).
Proof.
  apply (parsed_keys_unique
           (Sample.tag "Opening" "Italian Game" ++ PyStr.nl
            ++ Sample.tag "Opening" "Sicilian Defense" ++ PyStr.nl
            ++ Sample.tag "Result" "1-0")).
  vm_compute. reflexivity.
Defined.

(** ** Columns of the frame *)

Lemma add_column_In (x k : string) (cols : list string) :
  In x (DataFrame.add_column cols k) <-> In x cols \/ x = k.
Proof.
  unfold DataFrame.add_column.
  destruct (existsb (String.eqb k) cols) eqn:E.
  - split; [auto | intros [H | ->]; [exact H |]].
    apply existsb_exists in E. destruct E as [y [Hy Hky]].
    apply String.eqb_eq in Hky. subst y. exact Hy.
  - rewrite in_app_iff. simpl. split; intros [H | H]; auto.
    destruct H as [-> | []]. auto.
Qed.

Lemma fold_add_column_In (x : string) (ks cols : list string) :
  In x (fold_left DataFrame.add_column ks cols) <-> In x cols \/ In x ks.
Proof.
  revert cols. induction ks as [| k ks IH]; intro cols; simpl; [tauto |].
  rewrite IH, add_column_In. split; intuition auto.
Qed.

Lemma columns_In (x : string) (data : list PyDict.t) (cols : list string) :
  In x (fold_left (fun cols d => fold_left DataFrame.add_column (PyDict.keys d) cols)
                  data cols)
  <-> In x cols \/ exists d, In d data /\ In x (PyDict.keys d).
Proof.
  revert cols. induction data as [| d data IH]; intro cols; simpl.
  - split; [auto | intros [H | [d [[] _]]]; exact H].
  - rewrite IH, fold_add_column_In. split.
    + intros [[H | H] | [d' [Hd' Hx]]]; eauto.
    + intros [H | [d' [[-> | Hd'] Hx]]]; eauto.
Qed.

Lemma get_None_iff (k : string) (d : PyDict.t) :
  PyDict.get k d = None <-> ~ In k (PyDict.keys d).
Proof.
  unfold PyDict.keys. induction d as [| [k' v] r IH]; simpl; [tauto |].
  destruct (String.eqb k k') eqn:E.
  - apply String.eqb_eq in E. subst k'. split; [discriminate | intro H].
    exfalso. apply H. left. reflexivity.
  - apply String.eqb_neq in E. rewrite IH. split.
    + intros H [Hk | Hin]; [apply E; symmetry; exact Hk | exact (H Hin)].
    + intros H Hin. apply H. right. exact Hin.
Qed.

(** X6.  Selecting a column of the frame of some records raises [KeyError]
    exactly when no record has the key; otherwise it gives, row by row, the
    value of the key or the missing value. *)
Theorem column_of_records :
  forall (name : string) (data : list PyDict.t),
    ((exists d, In d data /\ PyDict.get name d <> None) ->
     DataFrame.col name (DataFrame.of_records data)
     = Ok (map (PyDict.get name) data))
    /\ ((forall d, In d data -> PyDict.get name d = None) ->
        DataFrame.col name (DataFrame.of_records data) = Raise KeyError).
Proof.
  intros name data. unfold DataFrame.col, DataFrame.of_records. simpl. split.
  - intros [d [Hd Hget]].
    rewrite get_None_iff in Hget.
    destruct (existsb _ _) eqn:E; [reflexivity |].
    assert (Hin : In name (PyDict.keys d)).
    { destruct (in_dec string_dec name (PyDict.keys d)); [assumption | contradiction]. }
    assert (Hcol : existsb (String.eqb name)
                     (fold_left (fun cols d => fold_left DataFrame.add_column (PyDict.keys d) cols)
                                data []) = true).
    { apply existsb_exists. exists name. split; [| apply String.eqb_refl].
      apply columns_In. right. exists d. split; assumption. }
    rewrite Hcol in E. discriminate E.
  - intro Hnone. destruct (existsb _ _) eqn:E; [| reflexivity].
    apply existsb_exists in E. destruct E as [x [Hx Hnx]].
    apply String.eqb_eq in Hnx. subst x.
    apply columns_In in Hx. destruct Hx as [[] | [d [Hd Hin]]].
    specialize (Hnone d Hd). rewrite get_None_iff in Hnone. contradiction.
Qed.

Lemma column_of_records_witness :
  DataFrame.col "Opening"
    (DataFrame.of_records [[("Result", "1-0")]; [("Opening", "Ruy Lopez")]])
  = Ok [None; Some "Ruy Lopez"]
  /\ DataFrame.col "Opening" (DataFrame.of_records [[("Result", "1-0")]])
     = Raise KeyError.
Proof.
  split.
  - apply (proj1 (column_of_records "Opening"
                    [[("Result", "1-0")]; [("Opening", "Ruy Lopez")]])).
    exists [("Opening", "Ruy Lopez")]. split; [right; left; reflexivity | discriminate].
  - apply (proj2 (column_of_records "Opening" [[("Result", "1-0")]])).
    intros d [<- | []]. reflexivity.
Defined.

(** ** Splitting around a separator *)

Lemma mem_app (c : ascii) (a b : string) :
  PyStr.mem c (a ++ b) = PyStr.mem c a || PyStr.mem c b.
Proof.
  induction a as [| x a IH]; simpl; [reflexivity |].
  rewrite IH, orb_assoc. reflexivity.
Qed.

Lemma prefix_char (c x : ascii) (s : string) :
  prefix (String c EmptyString) (String x s) = Ascii.eqb c x.
Proof.
  simpl. destruct (ascii_dec c x) as [-> | Hne].
  - rewrite Ascii.eqb_refl. destruct s; reflexivity.
  - symmetry. apply Ascii.eqb_neq. exact Hne.
Qed.

Lemma contains_char (c : ascii) (s : string) :
  PyStr.contains (String c EmptyString) s = PyStr.mem c s.
Proof.
  induction s as [| x s IH]; [reflexivity |].
  rewrite contains_eq, prefix_char. simpl.
  destruct (Ascii.eqb c x); [reflexivity | exact IH].
Qed.

(** The first segment ends at the first occurrence of a one-character
    separator. *)
Lemma split_char_first (c : ascii) (a b : string) :
  PyStr.mem c a = false ->
  forall cur,
    PyStr.split_from (String c EmptyString) 0 cur (a ++ String c b)
    = (cur ++ a)%string :: PyStr.split_from (String c EmptyString) 0 EmptyString b.
Proof.
  induction a as [| x a IH]; intros H cur.
  - simpl append. rewrite split_from_cons, prefix_char, Ascii.eqb_refl, append_nil_r.
    reflexivity.
  - simpl in H. apply orb_false_elim in H. destruct H as [Hx Ha].
    simpl append. rewrite split_from_cons, prefix_char, Hx.
    rewrite (IH Ha), append_assoc. reflexivity.
Qed.

Lemma split_char_none (c : ascii) (s cur : string) :
  PyStr.mem c s = false ->
  PyStr.split_from (String c EmptyString) 0 cur s = [(cur ++ s)%string].
Proof.
  intro H. apply split_from_no_match. rewrite contains_char. exact H.
Qed.

Lemma prefix_pair (c1 c2 x : ascii) (s : string) :
  prefix (String c1 (String c2 EmptyString)) (String x s)
  = Ascii.eqb c1 x && prefix (String c2 EmptyString) s.
Proof.
  simpl. destruct (ascii_dec c1 x) as [-> | Hne].
  - rewrite Ascii.eqb_refl. reflexivity.
  - apply Ascii.eqb_neq in Hne. rewrite Hne. reflexivity.
Qed.

(** The same for a separator of two different characters, the second of
    which does not occur before it. *)
Lemma split_pair_first (c1 c2 : ascii) (a b : string) :
  c1 <> c2 ->
  PyStr.mem c2 a = false ->
  forall cur,
    PyStr.split_from (String c1 (String c2 EmptyString)) 0 cur
      (a ++ String c1 (String c2 b))
    = (cur ++ a)%string
      :: PyStr.split_from (String c1 (String c2 EmptyString)) 0 EmptyString b.
Proof.
  intro Hne. induction a as [| x a IH]; intros H cur.
  - simpl append. rewrite split_from_cons, prefix_pair, prefix_char.
    rewrite !Ascii.eqb_refl, append_nil_r. reflexivity.
  - simpl in H. apply orb_false_elim in H. destruct H as [Hx Ha].
    simpl append. rewrite split_from_cons, prefix_pair.
    assert (Hp : prefix (String c2 EmptyString) (a ++ String c1 (String c2 b)) = false).
    { destruct a as [| y a]; simpl append; rewrite prefix_char.
      - apply Ascii.eqb_neq. intro E. apply Hne. symmetry. exact E.
      - simpl in Ha. apply orb_false_elim in Ha. apply Ha. }
    rewrite Hp, andb_false_r, (IH Ha), append_assoc. reflexivity.
Qed.

(** ** Stripping *)

Lemma rstrip_cons (p : ascii -> bool) (c : ascii) (s : string) :
  PyStr.rstrip p (String c s)
  = match PyStr.rstrip p s with
    | EmptyString => if p c then EmptyString else String c EmptyString
    | r => String c r
    end.
Proof. reflexivity. Qed.

Lemma rstrip_snoc (p : ascii -> bool) (c : ascii) (s : string) :
  p c = true -> PyStr.rstrip p (s ++ String c EmptyString) = PyStr.rstrip p s.
Proof.
  intro Hc. induction s as [| x s IH].
  - simpl. rewrite Hc. reflexivity.
  - simpl append. rewrite !rstrip_cons, IH. reflexivity.
Qed.

(** A string that the right strip leaves alone: so is its tail, and it is
    not a single stripped character. *)
Lemma rstrip_fixed_cons (p : ascii -> bool) (c : ascii) (s : string) :
  PyStr.rstrip p (String c s) = String c s ->
  PyStr.rstrip p s = s /\ (s = EmptyString -> p c = false).
Proof.
  rewrite rstrip_cons. destruct (PyStr.rstrip p s) as [| y r] eqn:E.
  - destruct (p c); intro H; [discriminate H |].
    injection H as <-. split; [reflexivity | reflexivity].
  - intro H. injection H as <-. split; [reflexivity | discriminate].
Qed.

Lemma lstrip_fixed_cons (p : ascii -> bool) (c : ascii) (s : string) :
  p c = false -> PyStr.lstrip p (String c s) = String c s.
Proof. intro H. simpl. rewrite H. reflexivity. Qed.

Lemma rstrip_head (p : ascii -> bool) (c : ascii) (s : string) :
  p c = false -> exists r, PyStr.rstrip p (String c s) = String c r.
Proof.
  intro H. rewrite rstrip_cons, H.
  destruct (PyStr.rstrip p s); eexists; reflexivity.
Qed.

Lemma lstrip_rstrip_lstrip (p : ascii -> bool) (s : string) :
  PyStr.lstrip p (PyStr.rstrip p (PyStr.lstrip p s))
  = PyStr.rstrip p (PyStr.lstrip p s).
Proof.
  induction s as [| c s IH]; [reflexivity |].
  simpl PyStr.lstrip at 2 3. destruct (p c) eqn:E; [exact IH |].
  destruct (rstrip_head p c s E) as [r Hr]. rewrite Hr.
  apply lstrip_fixed_cons. exact E.
Qed.

Lemma rstrip_idempotent (p : ascii -> bool) (s : string) :
  PyStr.rstrip p (PyStr.rstrip p s) = PyStr.rstrip p s.
Proof.
  induction s as [| c s IH]; [reflexivity |].
  rewrite rstrip_cons. destruct (PyStr.rstrip p s) as [| y r] eqn:E.
  - destruct (p c) eqn:Ec; [reflexivity |]. simpl. rewrite Ec. reflexivity.
  - rewrite rstrip_cons, IH. reflexivity.
Qed.

(** Stripping twice is stripping once, for any set of stripped characters. *)
Lemma strip_twice (p : ascii -> bool) (s : string) :
  PyStr.rstrip p (PyStr.lstrip p (PyStr.rstrip p (PyStr.lstrip p s)))
  = PyStr.rstrip p (PyStr.lstrip p s).
Proof. rewrite lstrip_rstrip_lstrip. apply rstrip_idempotent. Qed.

Lemma strip_fixed_rstrip (p : ascii -> bool) (s : string) :
  PyStr.rstrip p (PyStr.lstrip p s) = s -> PyStr.rstrip p s = s.
Proof.
  intro H. rewrite <- H at 1. rewrite rstrip_idempotent. exact H.
Qed.

Lemma strip_fixed_lstrip (p : ascii -> bool) (s : string) :
  PyStr.rstrip p (PyStr.lstrip p s) = s -> PyStr.lstrip p s = s.
Proof.
  intro H. rewrite <- H at 1. rewrite lstrip_rstrip_lstrip. exact H.
Qed.

(** ** Reading a tag line back *)

Lemma lstrip_length (p : ascii -> bool) (s : string) :
  String.length (PyStr.lstrip p s) <= String.length s.
Proof.
  induction s as [| c s IH]; simpl; [lia |].
  destruct (p c); simpl; lia.
Qed.

Lemma lstrip_fixed_head (p : ascii -> bool) (c : ascii) (s : string) :
  PyStr.lstrip p (String c s) = String c s -> p c = false.
Proof.
  simpl. destruct (p c); [| reflexivity]. intro H.
  pose proof (lstrip_length p s) as Hl. rewrite H in Hl. simpl in Hl. lia.
Qed.

Lemma mem_cons (c d : ascii) (r : string) :
  PyStr.mem c (String d r) = Ascii.eqb c d || PyStr.mem c r.
Proof. reflexivity. Qed.

(** No space-quote pair in a value without quotes that does not end in a
    space, followed by the closing quote. *)
Lemma no_space_quote (p : ascii -> bool) (v : string) :
  p space = true ->
  PyStr.mem quote v = false ->
  PyStr.rstrip p v = v ->
  PyStr.contains (String space (String quote EmptyString))
                 (v ++ String quote EmptyString) = false.
Proof.
  intro Hp. induction v as [| x v IH]; intros Hq Hr; [reflexivity |].
  rewrite mem_cons in Hq. apply orb_false_elim in Hq. destruct Hq as [Hx Hv].
  apply rstrip_fixed_cons in Hr. destruct Hr as [Hr Hlast].
  simpl append. rewrite contains_eq, prefix_pair.
  assert (Hpre : Ascii.eqb space x
                 && prefix (String quote EmptyString) (v ++ String quote EmptyString)
                 = false).
  { destruct v as [| y v].
    - specialize (Hlast eq_refl).
      destruct (Ascii.eqb space x) eqn:E; [| reflexivity].
      apply Ascii.eqb_eq in E. subst x. rewrite Hp in Hlast. discriminate Hlast.
    - simpl append. rewrite prefix_char.
      rewrite mem_cons in Hv. apply orb_false_elim in Hv. destruct Hv as [Hy _].
      rewrite Hy. apply andb_false_r. }
  rewrite Hpre. apply IH; assumption.
Qed.

Lemma strip_closing_quote (p : ascii -> bool) (v : string) :
  p quote = true ->
  PyStr.lstrip p v = v ->
  PyStr.rstrip p v = v ->
  PyStr.rstrip p (PyStr.lstrip p (v ++ String quote EmptyString)) = v.
Proof.
  intros Hq Hl Hr. destruct v as [| x v].
  - simpl. rewrite Hq. reflexivity.
  - apply lstrip_fixed_head in Hl.
    simpl append. rewrite (lstrip_fixed_cons p x _ Hl).
    change (String x (v ++ String quote EmptyString))
      with (String x v ++ String quote EmptyString)%string.
    rewrite rstrip_snoc by exact Hq. exact Hr.
Qed.

Lemma tag_shape (k v : string) :
  Sample.tag k v
  = String open_bracket
      ((k ++ String space (String quote (v ++ String quote EmptyString)))
       ++ String close_bracket EmptyString).
Proof.
  unfold Sample.tag. simpl. f_equal.
  rewrite append_assoc. simpl. rewrite append_assoc. reflexivity.
Qed.

Lemma plain_inv (s : string) :
  plain s = true ->
  PyStr.mem open_bracket s = false
  /\ PyStr.mem close_bracket s = false
  /\ PyStr.mem quote s = false.
Proof.
  unfold plain. intro H.
  apply andb_prop in H. destruct H as [H Hq]. apply andb_prop in H.
  destruct H as [Ho Hc].
  apply negb_true_iff in Ho, Hc, Hq. auto.
Qed.

(** The three splits of the parser on a tag line whose key and value hold
    none of the characters split on. *)
Lemma parse_tag_line (d : PyDict.t) (k v : string) :
  PyStr.mem open_bracket k = false ->
  PyStr.mem close_bracket k = false ->
  PyStr.mem quote k = false ->
  PyStr.mem open_bracket v = false ->
  PyStr.mem close_bracket v = false ->
  PyStr.mem quote v = false ->
  PyStr.strip k = k ->
  PyStr.lstrip (fun c => PyStr.mem c value_trim) v = v ->
  PyStr.rstrip (fun c => PyStr.mem c value_trim) v = v ->
  parse_line d (Sample.tag k v) = Ok (PyDict.set k v d).
Proof.
  intros Hko Hkc Hkq Hvo Hvc Hvq Hsk Hvl Hvr.
  set (p := fun c => PyStr.mem c value_trim).
  set (value := (v ++ String quote EmptyString)%string).
  set (inside := (k ++ String space (String quote value))%string).
  set (rest := (inside ++ String close_bracket EmptyString)%string).
  assert (Hline : Sample.tag k v = String open_bracket rest) by apply tag_shape.
  assert (Hio : PyStr.mem open_bracket inside = false).
  { unfold inside, value. rewrite mem_app. simpl. rewrite mem_app, Hko, Hvo. reflexivity. }
  assert (Hic : PyStr.mem close_bracket inside = false).
  { unfold inside, value. rewrite mem_app. simpl. rewrite mem_app, Hkc, Hvc. reflexivity. }
  assert (H1 : PyStr.split "[" (Sample.tag k v) = [EmptyString; rest]).
  { rewrite Hline. unfold PyStr.split.
    etransitivity;
      [exact (split_char_first open_bracket EmptyString rest eq_refl EmptyString) |].
    rewrite split_char_none; [reflexivity |].
    unfold rest. rewrite mem_app, Hio. reflexivity. }
  assert (H2 : PyStr.split "]" rest = [inside; EmptyString]).
  { unfold rest, PyStr.split.
    etransitivity;
      [exact (split_char_first close_bracket inside EmptyString Hic EmptyString) |].
    reflexivity. }
  assert (H3 : PyStr.split (" " ++ PyStr.dq) inside = [k; value]).
  { unfold inside, PyStr.split.
    etransitivity;
      [exact (split_pair_first space quote k value ltac:(discriminate) Hkq EmptyString) |].
    rewrite split_from_no_match; [reflexivity |].
    apply (no_space_quote p); [reflexivity | exact Hvq | exact Hvr]. }
  assert (H4 : PyStr.strip_chars (" " ++ PyStr.dq) value = v).
  { apply (strip_closing_quote p); [reflexivity | exact Hvl | exact Hvr]. }
  assert (Hgo : PyStr.contains "[" (Sample.tag k v) = true).
  { rewrite Hline.
    etransitivity; [exact (contains_char open_bracket (String open_bracket rest)) |].
    rewrite mem_cons, Ascii.eqb_refl. reflexivity. }
  assert (Hgc : PyStr.contains "]" (Sample.tag k v) = true).
  { rewrite Hline.
    etransitivity; [exact (contains_char close_bracket (String open_bracket rest)) |].
    rewrite mem_cons. unfold rest. rewrite mem_app, mem_cons, Ascii.eqb_refl.
    rewrite orb_true_r. apply orb_true_r. }
  unfold parse_line.
  rewrite Hgo, Hgc, H1. simpl nth_error. cbv iota beta.
  rewrite H2, H3, H4, Hsk. reflexivity.
Qed.

(** X7.  A tag line written from a key and a value free of brackets and quotes,
    the key without surrounding white space and the value without
    surrounding spaces, assigns exactly that value to that key. *)
Theorem tag_line_round_trip :
  forall (d : PyDict.t) (k v : string),
    plain k = true ->
    plain v = true ->
    PyStr.strip k = k ->
    PyStr.strip_chars value_trim v = v ->
    parse_line d (Sample.tag k v) = Ok (PyDict.set k v d).
Proof.
  intros d k v Hk Hv Hsk Hsv.
  destruct (plain_inv k Hk) as [Hko [Hkc Hkq]].
  destruct (plain_inv v Hv) as [Hvo [Hvc Hvq]].
  apply parse_tag_line; try assumption.
  - apply strip_fixed_lstrip. exact Hsv.
  - apply strip_fixed_rstrip. exact Hsv.
Qed.

Lemma tag_line_round_trip_witness :
  parse_line [("Opening", "Italian Game")]
             (Sample.tag "Opening" "Sicilian Defense: Najdorf Variation")
  = Ok (PyDict.set "Opening" "Sicilian Defense: Najdorf Variation"
                   [("Opening", "Italian Game")]).
Proof.
  apply tag_line_round_trip; vm_compute; reflexivity.
Defined.

(** ** Stored keys and values *)

Lemma parse_line_Ok (d d' : PyDict.t) (line : string) :
  parse_line d line = Ok d' ->
  d' = d
  \/ exists key value,
       d' = PyDict.set (PyStr.strip key) (PyStr.strip_chars value_trim value) d.
Proof.
  unfold parse_line.
  destruct (PyStr.contains "[" line && PyStr.contains "]" line);
    [| intro H; injection H as <-; left; reflexivity].
  destruct (nth_error (PyStr.split "[" line) 1) as [after |]; [| discriminate].
  destruct (PyStr.split "]" after) as [| inside rest]; [discriminate |].
  destruct (PyStr.split (" " ++ PyStr.dq) inside) as [| key [| value [| x xs]]];
    try discriminate.
  intro H. injection H as <-. right. exists key, value. reflexivity.
Qed.

Lemma set_Forall (P : string * string -> Prop) (k v : string) (d : PyDict.t) :
  P (k, v) -> Forall P d -> Forall P (PyDict.set k v d).
Proof.
  intros Hkv Hd. induction Hd as [| [k' v'] r Hp Hr IH]; simpl.
  - constructor; [exact Hkv | constructor].
  - destruct (String.eqb k k'); constructor; assumption.
Qed.

Lemma parse_lines_stripped (lines : list string) :
  forall d rec,
    Forall stripped_field d -> parse_lines d lines = Ok rec -> Forall stripped_field rec.
Proof.
  induction lines as [| l r IH]; simpl; intros d rec Hd H.
  - injection H as <-. exact Hd.
  - bind_inv H. apply (IH a rec); [| exact H].
    apply parse_line_Ok in Ha. destruct Ha as [-> | [key [value ->]]]; [exact Hd |].
    apply set_Forall; [| exact Hd].
    split; simpl; [unfold PyStr.strip | unfold PyStr.strip_chars]; apply strip_twice.
Qed.

(** X8.  Every key of a parsed record is free of surrounding white space and
    every value free of surrounding spaces and quotes. *)
Theorem parsed_fields_stripped :
  forall (game : string) (rec : PyDict.t),
    parse_game game = Ok rec -> Forall stripped_field rec.
Proof.
  intros game rec H. apply (parse_lines_stripped _ [] rec (Forall_nil _) H).
Qed.

Lemma parsed_fields_stripped_witness :
  Forall stripped_field [("White", "Magnus"); ("Opening", "Ruy Lopez")].
Proof.
  apply (parsed_fields_stripped
           ("[ White  " ++ PyStr.dq ++ " Magnus" ++ PyStr.dq ++ "]" ++ PyStr.nl
            ++ Sample.tag "Opening" "Ruy Lopez")).
  vm_compute. reflexivity.
Defined.

(** * Further properties of the ranking *)

(** ** Counts against the hand count *)

Lemma occurrences_snoc (k : string) (col : list (option string)) (x : option string) :
  occurrences k (col ++ [x])
  = occurrences k col
    + match x with
      | Some k0 => if String.eqb k k0 then 1 else 0
      | None => 0
      end.
Proof.
  induction col as [| [k' |] col IH]; simpl.
  - destruct x; lia.
  - rewrite IH. lia.
  - exact IH.
Qed.

Lemma occurrences_notin (k : string) (col : list (option string)) :
  ~ In (Some k) col -> occurrences k col = 0.
Proof.
  induction col as [| [k' |] col IH]; simpl; intro H; [reflexivity | |].
  - destruct (String.eqb k k') eqn:E.
    + apply String.eqb_eq in E. subst k'. exfalso. apply H. left. reflexivity.
    + apply IH. intro Hin. apply H. right. exact Hin.
  - apply IH. intro Hin. apply H. right. exact Hin.
Qed.

Lemma occurrences_bound (k : string) (col : list (option string)) :
  occurrences k col <= List.length col.
Proof.
  induction col as [| [k' |] col IH]; simpl; [lia | destruct (String.eqb k k') |]; lia.
Qed.

Lemma StronglySorted_NoDup {A : Type} (R : A -> A -> Prop) (l : list A) :
  (forall a, ~ R a a) -> StronglySorted R l -> NoDup l.
Proof.
  intros Hirr Hs. induction Hs as [| a l Hs IH Ha]; constructor; [| exact IH].
  intro Hin. rewrite Forall_forall in Ha. exact (Hirr a (Ha a Hin)).
Qed.

Lemma tally_NoDup (col : list (option string)) :
  NoDup (map fst (Series.tally col)).
Proof.
  apply (StronglySorted_NoDup
           (fun a b => first_index a col < first_index b col)).
  - intro a. apply Nat.lt_irrefl.
  - apply tally_first_occurrence.
Qed.

Lemma bump_counts (f : string -> nat) (k0 : string) (acc : Series.t) :
  NoDup (map fst acc) ->
  Forall (fun p => snd p = f (fst p)) acc ->
  (~ In k0 (map fst acc) -> f k0 = 0) ->
  Forall (fun p => snd p = f (fst p) + (if String.eqb (fst p) k0 then 1 else 0))
         (Series.bump k0 acc).
Proof.
  induction acc as [| [k' n] r IH]; simpl; intros Hnd Hall Hzero.
  - constructor; [| constructor]. simpl.
    rewrite String.eqb_refl, (Hzero (fun H => H)). reflexivity.
  - inversion Hnd as [| ? ? Hk' Hr]; subst.
    inversion Hall as [| ? ? Hn Hrest]; subst. simpl in Hn.
    destruct (String.eqb k0 k') eqn:E.
    + apply String.eqb_eq in E. subst k'. constructor.
      * simpl. rewrite String.eqb_refl. lia.
      * rewrite Forall_forall in *. intros p Hp.
        assert (Hne : String.eqb (fst p) k0 = false).
        { apply String.eqb_neq. intros <-. apply Hk'. apply in_map. exact Hp. }
        rewrite Hne, (Hrest p Hp). lia.
    + constructor.
      * simpl. rewrite String.eqb_sym, E. lia.
      * apply IH; [exact Hr | exact Hrest |].
        intro Hn0. apply Hzero. intros [Heq | Hin]; [| exact (Hn0 Hin)].
        subst k'. rewrite String.eqb_refl in E. discriminate E.
Qed.

(** Every entry of the count holds the number of occurrences of its key. *)
Lemma tally_counts (col : list (option string)) :
  Forall (fun p => snd p = occurrences (fst p) col) (Series.tally col).
Proof.
  induction col as [| x col IH] using rev_ind; [constructor |].
  rewrite tally_snoc. destruct x as [k0 |]; simpl.
  - pose proof (bump_counts (fun k => occurrences k col) k0 (Series.tally col)
                  (tally_NoDup col) IH) as H.
    eapply Forall_impl; [| apply H].
    + intros p Hp. rewrite occurrences_snoc. exact Hp.
    + intro Hn. apply occurrences_notin. rewrite <- tally_keys. exact Hn.
  - eapply Forall_impl; [| exact IH].
    intros p Hp. cbv beta in Hp. rewrite occurrences_snoc, Hp. lia.
Qed.

Lemma in_top_openings (df : DataFrame.t) (top : Series.t) (p : string * nat) :
  top_openings df = Ok top -> In p top -> In p (Series.tally (opening_column df)).
Proof.
  intros H Hin. apply top_openings_Ok in H. subst top.
  unfold Series.head, Series.value_counts in Hin.
  apply sort_values_desc_In.
  rewrite <- (firstn_skipn top_n (Series.sort_values_desc _)).
  apply in_or_app. left. exact Hin.
Qed.

(** X11.  The count returned with an opening is the number of records of the
    corpus whose tag holds that opening. *)
Theorem top_openings_counts_exact :
  forall (df : DataFrame.t) (top : Series.t) (o : string) (n : nat),
    top_openings df = Ok top ->
    In (o, n) top ->
    n = occurrences o (opening_column df).
Proof.
  intros df top o n H Hin.
  pose proof (in_top_openings df top (o, n) H Hin) as Ht.
  pose proof (tally_counts (opening_column df)) as Hc.
  rewrite Forall_forall in Hc. exact (Hc (o, n) Ht).
Qed.

Lemma top_openings_counts_exact_witness :
  2 = occurrences "Italian Game" (opening_column Sample.season_frame).
Proof.
  apply (top_openings_counts_exact Sample.season_frame
           [("Sicilian Defense", 2); ("Italian Game", 2); ("Ruy Lopez", 1);
            ("French Defense", 1); ("Caro-Kann Defense", 1)]).
  - reflexivity.
  - right. left. reflexivity.
Defined.

(** ** Openings listed once *)

Lemma NoDup_firstn {A : Type} (n : nat) (l : list A) :
  NoDup l -> NoDup (firstn n l).
Proof.
  intro H. rewrite <- (firstn_skipn n l) in H.
  exact (NoDup_app_remove_r _ _ H).
Qed.

Lemma value_counts_NoDup (col : list (option string)) :
  NoDup (map fst (Series.value_counts col)).
Proof.
  apply (Permutation_NoDup
           (Permutation_map fst (sort_values_desc_perm (Series.tally col)))).
  apply tally_NoDup.
Qed.

(** X12.  No opening is listed twice among the entries selected for a group. *)
Theorem top_openings_distinct :
  forall (df : DataFrame.t) (top : Series.t),
    top_openings df = Ok top -> NoDup (Series.index top).
Proof.
  intros df top H. apply top_openings_Ok in H. subst top.
  unfold Series.index, Series.head. rewrite <- firstn_map.
  apply NoDup_firstn. apply value_counts_NoDup.
Qed.

Lemma top_openings_distinct_witness :
  NoDup (Series.index
           [("Sicilian Defense", 2); ("Italian Game", 2); ("Ruy Lopez", 1);
            ("French Defense", 1); ("Caro-Kann Defense", 1)]).
Proof.
  apply (top_openings_distinct Sample.season_frame). reflexivity.
Defined.

(** ** The selection takes the most frequent *)

Lemma StronglySorted_app_cross {A : Type} (R : A -> A -> Prop) (l1 l2 : list A) :
  StronglySorted R (l1 ++ l2) ->
  forall x y, In x l1 -> In y l2 -> R x y.
Proof.
  induction l1 as [| a l1 IH]; simpl; intros Hs x y Hx Hy; [contradiction |].
  apply StronglySorted_inv in Hs. destruct Hs as [Hs Ha].
  destruct Hx as [<- | Hx].
  - rewrite Forall_forall in Ha. apply Ha. apply in_or_app. right. exact Hy.
  - exact (IH Hs x y Hx Hy).
Qed.

Lemma value_counts_keys (k : string) (col : list (option string)) :
  In k (map fst (Series.value_counts col)) <-> In (Some k) col.
Proof.
  rewrite <- tally_keys. unfold Series.value_counts.
  split; apply Permutation_in; [apply Permutation_sym |];
    apply Permutation_map; apply sort_values_desc_perm.
Qed.

(** X13.  An opening of the corpus that is not selected occurs no more often
    than any selected one. *)
Theorem top_openings_most_frequent :
  forall (df : DataFrame.t) (top : Series.t) (o o' : string) (n' : nat),
    top_openings df = Ok top ->
    In (Some o) (opening_column df) ->
    ~ In o (Series.index top) ->
    In (o', n') top ->
    occurrences o (opening_column df) <= n'.
Proof.
  intros df top o o' n' H Ho Hout Hin'.
  apply top_openings_Ok in H. fold (opening_column df) in H.
  set (col := opening_column df) in *.
  apply value_counts_keys in Ho. apply in_map_iff in Ho.
  destruct Ho as [[o1 n] [Heq Hin]]. simpl in Heq. subst o1.
  assert (Hn : n = occurrences o col).
  { pose proof (tally_counts col) as Hc. rewrite Forall_forall in Hc.
    apply (Hc (o, n)). apply sort_values_desc_In. exact Hin. }
  rewrite <- (firstn_skipn top_n (Series.value_counts col)) in Hin.
  apply in_app_or in Hin. destruct Hin as [Hin | Hin].
  - exfalso. apply Hout. subst top. unfold Series.index, Series.head.
    apply (in_map fst _ _ Hin).
  - pose proof (value_counts_descending col) as Hs. unfold descending in Hs.
    rewrite <- (firstn_skipn top_n (Series.value_counts col)) in Hs.
    subst top.
    pose proof (StronglySorted_app_cross _ _ _ Hs (o', n') (o, n) Hin' Hin) as Hr.
    simpl in Hr. lia.
Qed.

Lemma top_openings_most_frequent_witness :
  occurrences "English Opening" (opening_column Sample.season_frame) <= 1.
Proof.
  apply (top_openings_most_frequent Sample.season_frame
           [("Sicilian Defense", 2); ("Italian Game", 2); ("Ruy Lopez", 1);
            ("French Defense", 1); ("Caro-Kann Defense", 1)]
           "English Opening" "Caro-Kann Defense" 1).
  - reflexivity.
  - vm_compute. do 8 right. left. reflexivity.
  - vm_compute. intros [H | [H | [H | [H | [H | []]]]]]; discriminate H.
  - do 4 right. left. reflexivity.
Defined.

(** ** When the frame of a group can be built *)

Lemma present_In (k : string) (col : list (option string)) :
  In k (present col) <-> In (Some k) col.
Proof.
  induction col as [| [k' |] col IH]; simpl; [tauto | |].
  - rewrite IH. split; intros [H | H]; auto; [left; f_equal; exact H |].
    injection H as ->. left. reflexivity.
  - rewrite IH. split; [auto | intros [H | H]; [discriminate H | exact H]].
Qed.

Lemma value_counts_length (col : list (option string)) :
  List.length (Series.value_counts col) = distinct_count col.
Proof.
  unfold Series.value_counts, distinct_count.
  rewrite <- (Permutation_length (sort_values_desc_perm (Series.tally col))).
  rewrite <- (length_map fst).
  apply Permutation_length. apply NoDup_Permutation.
  - apply tally_NoDup.
  - apply NoDup_nodup.
  - intro k. rewrite tally_keys, nodup_In, present_In. tauto.
Qed.

Lemma zip_rows_length_eq (ms ps os : list string) (cs : list nat) :
  List.length ms = List.length ps ->
  List.length ps = List.length os ->
  List.length os = List.length cs ->
  List.length (zip_rows ms ps os cs) = List.length ms.
Proof.
  revert ps os cs. induction ms as [| m ms IH]; intros [| p ps] [| o os] [| c cs];
    simpl; intros H1 H2 H3; try discriminate; [reflexivity |].
  f_equal. apply IH; congruence.
Qed.

(** X14.  The frame of a group whose records carry the tag is built exactly when
    the corpus has at least [top_n] different openings, and then has
    [top_n] rows; with fewer the construction raises [ValueError]. *)
Theorem openings_frame_needs_top_n :
  forall (mode color : string) (df : DataFrame.t) (col : list (option string)),
    DataFrame.col "Opening" df = Ok col ->
    (top_n <= distinct_count col ->
     exists rows, openings_frame mode color df = Ok rows
                  /\ List.length rows = top_n)
    /\ (distinct_count col < top_n ->
        openings_frame mode color df = Raise ValueError).
Proof.
  intros mode color df col Hcol.
  assert (Htop : top_openings df = Ok (Series.head top_n (Series.value_counts col))).
  { unfold top_openings. rewrite Hcol. reflexivity. }
  assert (Hlen : List.length (Series.head top_n (Series.value_counts col))
                 = Nat.min top_n (distinct_count col)).
  { unfold Series.head. rewrite length_firstn, value_counts_length. reflexivity. }
  unfold openings_frame. rewrite Htop. cbn [bind].
  generalize dependent (Series.head top_n (Series.value_counts col)).
  intros top _ Hlen.
  unfold frame_of_columns, Series.index, Series.values.
  rewrite !length_map, !repeat_length, Hlen, !Nat.eqb_refl.
  cbn [andb].
  split; intro H.
  - rewrite (Nat.min_l _ _ H), Nat.eqb_refl.
    eexists. split; [reflexivity |].
    rewrite zip_rows_length_eq;
      rewrite ?length_map, ?repeat_length, ?Hlen, ?(Nat.min_l _ _ H); reflexivity.
  - rewrite Nat.min_r by lia.
    destruct (Nat.eqb_spec top_n (distinct_count col)) as [E | _]; [lia |].
    reflexivity.
Qed.

Lemma openings_frame_needs_top_n_witness :
  (exists rows, openings_frame "blitz" "white" Sample.season_frame = Ok rows
                /\ List.length rows = top_n)
  /\ openings_frame "blitz" "white"
       (DataFrame.of_records [[("Opening", "Ruy Lopez")]; [("Opening", "Ruy Lopez")]])
     = Raise ValueError.
Proof.
  split.
  - apply (proj1 (openings_frame_needs_top_n "blitz" "white" Sample.season_frame
                    _ eq_refl)).
    vm_compute. lia.
  - apply (proj2 (openings_frame_needs_top_n "blitz" "white"
                    (DataFrame.of_records
                       [[("Opening", "Ruy Lopez")]; [("Opening", "Ruy Lopez")]])
                    _ eq_refl)).
    vm_compute. lia.
Defined.

(** ** The order of equal counts *)

Lemma tally_length (col : list (option string)) :
  List.length (Series.tally col) = distinct_count col.
Proof.
  rewrite <- value_counts_length. unfold Series.value_counts.
  apply Permutation_length. apply sort_values_desc_perm.
Qed.

Example seventeen_parsed : pgn_to_dataframe Sample.seventeen = Ok Sample.seventeen_frame.
Proof. vm_compute. reflexivity. Qed.

(** Seventeen openings played once each are partitioned by the sort: the
    pivot exchange leaves the opening entered sixteenth ahead of the one
    entered fifteenth. *)
Lemma C6_seventeen_ties_out_of_order :
  top_openings Sample.seventeen_frame
  = Ok [("Sicilian Defense", 1); ("Pirc Defense", 1); ("Nimzo-Indian Defense", 1);
        ("Slav Defense", 1); ("Dutch Defense", 1)]
  /\ ~ StronglySorted
         (ranked_before (map (PyDict.get "Opening") (DataFrame.rows Sample.seventeen_frame)))
         [("Sicilian Defense", 1); ("Pirc Defense", 1); ("Nimzo-Indian Defense", 1);
          ("Slav Defense", 1); ("Dutch Defense", 1)].
Proof.
  split; [vm_compute; reflexivity |].
  intro H.
  apply StronglySorted_inv in H. destruct H as [H _].
  apply StronglySorted_inv in H. destruct H as [H _].
  apply StronglySorted_inv in H. destruct H as [_ H].
  apply Forall_inv in H. vm_compute in H. lia.
Qed.

(** C6.  The entries selected for a group stand by count descending,
    whatever the corpus.  Entries of equal count stand in the order in
    which their openings first occur in the corpus when the corpus has at
    most sixteen different openings; longer arrays of counts are
    partitioned by the sort, which does not keep that order. *)
Theorem C6_descending_ties_in_order_up_to_sixteen :
  forall (df : DataFrame.t) (top : Series.t),
    top_openings df = Ok top ->
    descending top
    /\ (distinct_count (opening_column df) <= 16 ->
        StronglySorted (ranked_before (opening_column df)) top).
Proof.
  intros df top H. apply top_openings_Ok in H. fold (opening_column df) in H.
  subst top. unfold Series.head. split.
  - apply StronglySorted_firstn. apply value_counts_descending.
  - intro Hn. apply StronglySorted_firstn. apply value_counts_ranked.
    rewrite tally_length. exact Hn.
Qed.

Lemma C6_descending_ties_in_order_up_to_sixteen_witness :
  descending [("Sicilian Defense", 2); ("Italian Game", 2); ("Ruy Lopez", 1);
              ("French Defense", 1); ("Caro-Kann Defense", 1)]
  /\ StronglySorted
       (ranked_before (opening_column Sample.season_frame))
       [("Sicilian Defense", 2); ("Italian Game", 2); ("Ruy Lopez", 1);
        ("French Defense", 1); ("Caro-Kann Defense", 1)].
Proof.
  destruct (C6_descending_ties_in_order_up_to_sixteen Sample.season_frame _ eq_refl)
    as [Hd Hr].
  split; [exact Hd |]. apply Hr. vm_compute. lia.
Defined.

(** ** The table, group by group *)

Lemma zip_rows_tagged (mode color : string) (n : nat) (os : list string) (cs : list nat) :
  Forall (fun r => game_mode r = mode /\ piece r = color)
         (zip_rows (repeat mode n) (repeat color n) os cs).
Proof.
  revert os cs. induction n as [| n IH]; intros [| o os] [| c cs]; simpl;
    try constructor.
  - split; reflexivity.
  - apply IH.
Qed.

Lemma openings_frame_shape (mode color : string) (df : DataFrame.t) (rows : list Row) :
  openings_frame mode color df = Ok rows ->
  List.length rows = top_n
  /\ Forall (fun r => game_mode r = mode /\ piece r = color) rows.
Proof.
  unfold openings_frame. intro H. bind_inv H.
  pose proof (frame_of_columns_Ok _ _ _ _ _ H) as Hrows.
  unfold frame_of_columns in H.
  destruct (_ && _) eqn:E; [| discriminate H]. clear H. subst rows.
  apply andb_prop in E. destruct E as [E E3]. apply andb_prop in E.
  destruct E as [E1 E2]. apply Nat.eqb_eq in E1, E2, E3.
  split; [| apply (zip_rows_tagged mode color top_n)].
  rewrite zip_rows_length_eq by assumption. apply repeat_length.
Qed.

Lemma group_step_rows rg u mode color s s' :
  group_step rg u mode color s = Ok s' ->
  favorite_openings_df s' = favorite_openings_df s ++ group_rows rg u mode color
  /\ st_errors s'
     = st_errors s
       ++ (if request_failed rg u (mode, color) then [failed_message color mode] else []).
Proof.
  unfold group_step, group_rows, request_failed. simpl fst. simpl snd.
  destruct (status_code _ =? 200)%Z; simpl negb; cbv iota.
  - intro H. bind_inv H. rewrite Ha.
    destruct (DataFrame.empty a); simpl in H.
    + injection H as <-. rewrite !app_nil_r. split; reflexivity.
    + bind_inv H. rewrite Ha0. injection H as <-. simpl.
      rewrite app_nil_r. split; reflexivity.
  - intro H. injection H as <-. simpl. rewrite app_nil_r. split; reflexivity.
Qed.

(** X16.  A step that returns appends either nothing or exactly [top_n] rows,
    each labelled with the mode and the color of its group. *)
Theorem group_adds_none_or_top_n :
  forall (requests_get : string -> response) (username mode color : string)
         (s s' : loop_state),
    group_step requests_get username mode color s = Ok s' ->
    exists rows,
      favorite_openings_df s' = favorite_openings_df s ++ rows
      /\ (rows = [] \/ List.length rows = top_n)
      /\ Forall (fun r => game_mode r = mode /\ piece r = color) rows.
Proof.
  intros rg u mode color s s' H. unfold group_step in H.
  destruct (status_code _ =? 200)%Z.
  - bind_inv H. destruct (DataFrame.empty a); simpl in H.
    + injection H as <-. exists []. rewrite app_nil_r. auto.
    + bind_inv H. injection H as <-. exists a0. simpl.
      apply openings_frame_shape in Ha0. destruct Ha0 as [Hlen Htag]. auto.
  - injection H as <-. exists []. simpl. rewrite app_nil_r. auto.
Qed.

Lemma group_adds_none_or_top_n_witness :
  exists rows,
    [mkRow "blitz" "white" "Sicilian Defense" 2;
     mkRow "blitz" "white" "Italian Game" 2;
     mkRow "blitz" "white" "Ruy Lopez" 1;
     mkRow "blitz" "white" "French Defense" 1;
     mkRow "blitz" "white" "Caro-Kann Defense" 1]
    = [] ++ rows
    /\ (rows = [] \/ List.length rows = top_n)
    /\ Forall (fun r => game_mode r = "blitz" /\ piece r = "white") rows.
Proof.
  assert (Hstep : group_step (Sample.always Sample.season) "user" "blitz" "white"
                    (mkState [] [])
                  = Ok (mkState
                          [mkRow "blitz" "white" "Sicilian Defense" 2;
                           mkRow "blitz" "white" "Italian Game" 2;
                           mkRow "blitz" "white" "Ruy Lopez" 1;
                           mkRow "blitz" "white" "French Defense" 1;
                           mkRow "blitz" "white" "Caro-Kann Defense" 1] []))
    by (vm_compute; reflexivity).
  exact (group_adds_none_or_top_n _ _ _ _ _ _ Hstep).
Defined.

Lemma run_groups_rows rg u pairs :
  forall s s',
    run_groups rg u pairs s = Ok s' ->
    favorite_openings_df s'
    = favorite_openings_df s ++ flat_map (fun p => group_rows rg u (fst p) (snd p)) pairs
    /\ st_errors s'
       = st_errors s
         ++ map (fun p => failed_message (snd p) (fst p))
                (filter (request_failed rg u) pairs).
Proof.
  induction pairs as [| [m c] r IH]; simpl; intros s s' H.
  - injection H as <-. rewrite !app_nil_r. split; reflexivity.
  - bind_inv H. apply group_step_rows in Ha. destruct Ha as [Hrows Herr].
    apply IH in H. destruct H as [Hrows' Herr'].
    rewrite Hrows', Hrows, Herr', Herr, <- !app_assoc.
    destruct (request_failed rg u (m, c)); split; reflexivity.
Qed.

Lemma table_by_pairs rg u game_modes s :
  get_most_favorite_openings rg u game_modes = Ok s ->
  favorite_openings_df s
  = flat_map (fun p => group_rows rg u (fst p) (snd p)) (mode_color_pairs game_modes).
Proof.
  intro H. unfold get_most_favorite_openings in H. rewrite for_modes_run_groups in H.
  apply run_groups_rows in H. destruct H as [H _]. exact H.
Qed.

Lemma in_table rg u game_modes (r : Row) :
  In r (flat_map (fun p => group_rows rg u (fst p) (snd p)) (mode_color_pairs game_modes))
  <-> exists mode color,
        In mode game_modes /\ In color piece_colors /\ In r (group_rows rg u mode color).
Proof.
  rewrite in_flat_map. unfold mode_color_pairs. split.
  - intros [[m c] [Hp Hr]]. apply in_flat_map in Hp. destruct Hp as [m' [Hm' Hp]].
    apply in_map_iff in Hp. destruct Hp as [c' [E Hc']]. injection E as <- <-.
    exists m', c'. auto.
  - intros [m [c [Hm [Hc Hr]]]]. exists (m, c). split; [| exact Hr].
    apply in_flat_map. exists m. split; [exact Hm |]. apply in_map. exact Hc.
Qed.

(** X17.  The returned table is the frames of the groups one after the other:
    the modes in the order given, white before black within a mode. *)
Theorem table_in_request_order :
  forall (requests_get : string -> response) (username : string)
         (game_modes : list string) (s : loop_state),
    get_most_favorite_openings requests_get username game_modes = Ok s ->
    favorite_openings_df s
    = flat_map (fun mode =>
                  group_rows requests_get username mode "white"
                  ++ group_rows requests_get username mode "black")
               game_modes.
Proof.
  intros rg u game_modes s H. rewrite (table_by_pairs rg u game_modes s H).
  unfold mode_color_pairs. clear H.
  induction game_modes as [| m r IH]; simpl; [reflexivity |].
  rewrite <- app_assoc. do 2 f_equal. exact IH.
Qed.

Lemma table_in_request_order_witness :
  exists s,
    get_most_favorite_openings (Sample.always Sample.season) "user" ["blitz"; "rapid"]
    = Ok s
    /\ favorite_openings_df s
       = flat_map (fun mode =>
                     group_rows (Sample.always Sample.season) "user" mode "white"
                     ++ group_rows (Sample.always Sample.season) "user" mode "black")
                  ["blitz"; "rapid"].
Proof.
  eexists. split; [vm_compute; reflexivity |].
  apply (table_in_request_order (Sample.always Sample.season) "user" ["blitz"; "rapid"]).
  vm_compute. reflexivity.
Defined.

(** X18.  When the ranking returns, one message was shown for each request not
    answered with 200, in request order, and none for the others. *)
Theorem one_message_per_failed_request :
  forall (requests_get : string -> response) (username : string)
         (game_modes : list string) (s : loop_state),
    get_most_favorite_openings requests_get username game_modes = Ok s ->
    st_errors s
    = map (fun p => failed_message (snd p) (fst p))
          (filter (request_failed requests_get username) (mode_color_pairs game_modes)).
Proof.
  intros rg u game_modes s H.
  unfold get_most_favorite_openings in H. rewrite for_modes_run_groups in H.
  apply run_groups_rows in H. destruct H as [_ H]. exact H.
Qed.

Lemma one_message_per_failed_request_witness :
  exists s,
    get_most_favorite_openings (Sample.white_only Sample.season) "user" ["blitz"] = Ok s
    /\ st_errors s = ["Failed to retrieve data for openings as black in blitz mode."].
Proof.
  eexists. split; [vm_compute; reflexivity |].
  etransitivity;
    [apply (one_message_per_failed_request (Sample.white_only Sample.season) "user"
              ["blitz"]); vm_compute; reflexivity |].
  vm_compute. reflexivity.
Defined.

(** ** Modes reported without openings *)

Lemma group_rows_tagged rg u mode color :
  Forall (fun r => game_mode r = mode /\ piece r = color) (group_rows rg u mode color).
Proof.
  unfold group_rows.
  destruct (status_code _ =? 200)%Z; [| constructor].
  destruct (pgn_to_dataframe _) as [df |]; [| constructor].
  destruct (DataFrame.empty df); [constructor |].
  destruct (openings_frame mode color df) as [rows |] eqn:E; [| constructor].
  apply openings_frame_shape in E. apply E.
Qed.





Lemma visualize_Ok (df : list Row) (plots : list subplot) :
  visualize_most_favorite_openings df = Ok plots ->
  2 <= List.length (unique (map game_mode df))
  /\ plots = map (mode_subplot df) (unique (map game_mode df)).
Proof.
  unfold visualize_most_favorite_openings. cbv zeta.
  destruct (unique (map game_mode df)) as [| m [| m' l]]; intro H;
    [discriminate H | discriminate H |].
  injection H as <-. split; [simpl; lia | reflexivity].
Qed.


Example one_mode_raises :
  main_most_favorite_openings (Sample.blitz_only Sample.season) "user" ["blitz"; "rapid"]
  = Raise TypeError.
Proof. vm_compute. reflexivity. Qed.

Example no_mode_raises :
  main_most_favorite_openings (Sample.always "") "user" ["blitz"; "rapid"]
  = Raise ValueError.
Proof. vm_compute. reflexivity. Qed.



(** ** The bars of a subplot *)

Lemma table_pieces rg u game_modes s :
  get_most_favorite_openings rg u game_modes = Ok s ->
  Forall (fun r => piece r = "white" \/ piece r = "black") (favorite_openings_df s).
Proof.
  intro H. apply table_by_pairs in H. rewrite H.
  rewrite Forall_forall. intros r Hr.
  apply in_table in Hr. destruct Hr as [m [c [_ [Hc Hr]]]].
  pose proof (group_rows_tagged rg u m c) as Ht.
  rewrite Forall_forall in Ht. destruct (Ht r Hr) as [_ E]. rewrite E.
  destruct Hc as [<- | [<- | []]]; auto.
Qed.

Lemma rows_where_Forall (P : Row -> Prop) (column : Row -> string) (value : string)
      (df : list Row) :
  Forall P df -> Forall P (rows_where column value df).
Proof.
  unfold rows_where. rewrite !Forall_forall. intros H r Hr.
  apply filter_In in Hr. apply H. apply Hr.
Qed.

Lemma white_and_black (df : list Row) :
  Forall (fun r => piece r = "white" \/ piece r = "black") df ->
  List.length df
  = List.length (rows_where piece "white" df)
    + List.length (rows_where piece "black" df).
Proof.
  unfold rows_where. induction 1 as [| r l [Hr | Hr] _ IH]; simpl;
    [reflexivity | |]; rewrite Hr; simpl; lia.
Qed.

Lemma mode_subplot_fits rg u game_modes s mode :
  get_most_favorite_openings rg u game_modes = Ok s ->
  let p := mode_subplot (favorite_openings_df s) mode in
  List.length (white_x p) = List.length (white_heights p)
  /\ List.length (black_x p) = List.length (black_heights p)
  /\ List.length (xticks p) = List.length (xticklabels p).
Proof.
  intros H p.
  pose proof (rows_where_Forall _ game_mode mode _ (table_pieces rg u game_modes s H))
    as Hp.
  apply white_and_black in Hp.
  set (mode_df := rows_where game_mode mode (favorite_openings_df s)) in *.
  unfold p, mode_subplot. fold mode_df. cbn [white_x white_heights black_x black_heights
                                            xticks xticklabels].
  set (w := rows_where piece "white" mode_df) in *.
  set (b := rows_where piece "black" mode_df) in *.
  rewrite firstn_skipn.
  rewrite length_firstn, length_skipn, length_seq, !length_map, length_app, !length_map.
  repeat split; lia.
Qed.

(** X20.  When the drawing of a table returned by the ranking returns, the
    table has at least two modes, there is one subplot for each of them in
    order of first appearance, and the positions handed to each subplot
    fit its bars: as many positions as white bars, as many as black bars,
    and one label for each tick. *)
Theorem bars_fit_positions :
  forall (requests_get : string -> response) (username : string)
         (game_modes : list string) (s : loop_state) (plots : list subplot),
    get_most_favorite_openings requests_get username game_modes = Ok s ->
    visualize_most_favorite_openings (favorite_openings_df s) = Ok plots ->
    2 <= List.length plots
    /\ map subplot_mode plots = unique (map game_mode (favorite_openings_df s))
    /\ Forall (fun p =>
                 List.length (white_x p) = List.length (white_heights p)
                 /\ List.length (black_x p) = List.length (black_heights p)
                 /\ List.length (xticks p) = List.length (xticklabels p))
              plots.
Proof.
  intros rg u game_modes s plots H Hv.
  apply visualize_Ok in Hv. destruct Hv as [Hn ->].
  split; [rewrite length_map; exact Hn |]. split.
  - rewrite map_map. apply map_id.
  - apply Forall_map. rewrite Forall_forall. intros mode _.
    apply (mode_subplot_fits rg u game_modes s mode H).
Qed.

Lemma bars_fit_positions_witness :
  exists s plots,
    get_most_favorite_openings (Sample.blitz_and_rapid Sample.season) "user"
      ["bullet"; "blitz"; "rapid"]
    = Ok s
    /\ visualize_most_favorite_openings (favorite_openings_df s) = Ok plots
    /\ map (fun p => List.length (white_x p)) plots = [5; 5]
    /\ 2 <= List.length plots
    /\ map subplot_mode plots = unique (map game_mode (favorite_openings_df s))
    /\ Forall (fun p =>
                 List.length (white_x p) = List.length (white_heights p)
                 /\ List.length (black_x p) = List.length (black_heights p)
                 /\ List.length (xticks p) = List.length (xticklabels p))
              plots.
Proof.
  eexists. eexists. split; [vm_compute; reflexivity |].
  split; [vm_compute; reflexivity |]. split; [reflexivity |].
  apply (bars_fit_positions (Sample.blitz_and_rapid Sample.season) "user"
           ["bullet"; "blitz"; "rapid"]);
    vm_compute; reflexivity.
Defined.

(** ** Records without the tag *)

Lemma tally_from_present (col : list (option string)) :
  forall acc,
    fold_left Series.tally_step col acc
    = fold_left Series.tally_step (map Some (present col)) acc.
Proof.
  induction col as [| [k |] col IH]; intro acc; simpl; [reflexivity | |]; apply IH.
Qed.

(** X15.  Records that lack the tag change neither the counts nor their order:
    the ranking of a column is the ranking of its present values. *)
Theorem value_counts_drops_missing :
  forall col : list (option string),
    Series.value_counts col = Series.value_counts (map Some (present col)).
Proof.
  intro col. unfold Series.value_counts, Series.tally.
  rewrite tally_from_present. reflexivity.
Qed.

(** ** Splitting loses nothing *)

Lemma prefix_app (a s : string) :
  prefix a s = true -> exists rest, s = (a ++ rest)%string.
Proof.
  revert s. induction a as [| x a IH]; intros s H.
  - exists s. reflexivity.
  - destruct s as [| y s]; [discriminate H |].
    simpl in H. destruct (ascii_dec x y) as [-> | _]; [| discriminate H].
    destruct (IH s H) as [rest ->]. exists rest. reflexivity.
Qed.

Lemma split_from_skip (sep a rest cur : string) :
  PyStr.split_from sep (String.length a) cur (a ++ rest)
  = PyStr.split_from sep 0 cur rest.
Proof.
  induction a as [| x a IH]; simpl.
  - destruct rest; reflexivity.
  - exact IH.
Qed.

Lemma split_from_nonempty (sep : string) (s : string) :
  forall k cur, PyStr.split_from sep k cur s <> [].
Proof.
  induction s as [| c s IH]; intros k cur; [discriminate |].
  destruct k as [| k]; [| apply (IH k cur)].
  rewrite split_from_cons.
  destruct (prefix sep (String c s)); [discriminate | apply IH].
Qed.

Lemma concat_cons (sep x : string) (l : list string) :
  l <> [] -> String.concat sep (x :: l) = (x ++ sep ++ String.concat sep l)%string.
Proof. destruct l; [congruence | reflexivity]. Qed.

Lemma append_length (a b : string) :
  String.length (a ++ b) = String.length a + String.length b.
Proof. induction a as [| x a IH]; simpl; [reflexivity | rewrite IH; reflexivity]. Qed.

Lemma join_split_from (sep : string) (n : nat) :
  sep <> EmptyString ->
  forall s cur,
    String.length s <= n ->
    String.concat sep (PyStr.split_from sep 0 cur s) = (cur ++ s)%string.
Proof.
  intro Hsep. induction n as [| n IH]; intros s cur Hn.
  - destruct s; [| simpl in Hn; lia]. simpl. rewrite append_nil_r. reflexivity.
  - destruct s as [| c s]; [simpl; rewrite append_nil_r; reflexivity |].
    rewrite split_from_cons. destruct (prefix sep (String c s)) eqn:E.
    + destruct sep as [| c0 sep']; [congruence |].
      simpl in E. destruct (ascii_dec c0 c) as [-> | _]; [| discriminate E].
      destruct (prefix_app sep' s E) as [rest ->].
      replace (String.length (String c sep') - 1) with (String.length sep')
        by (simpl; lia).
      rewrite split_from_skip.
      rewrite concat_cons by apply split_from_nonempty.
      rewrite IH.
      * reflexivity.
      * simpl in Hn. rewrite append_length in Hn. lia.
    + rewrite IH by (simpl in Hn; lia).
      rewrite append_assoc. reflexivity.
Qed.

(** X9.  Joining the segments of a split with the separator gives the text
    back: the blocks and the dropped last segment make up the whole
    export. *)
Theorem join_split :
  forall sep s : string,
    sep <> EmptyString ->
    String.concat sep (PyStr.split sep s) = s.
Proof.
  intros sep s Hsep. unfold PyStr.split.
  apply (join_split_from sep (String.length s) Hsep s EmptyString (le_n _)).
Qed.

Lemma join_split_witness :
  String.concat block_sep (PyStr.split block_sep Sample.three_games)
  = Sample.three_games.
Proof. apply join_split. discriminate. Defined.

(** ** Reading an export back *)

Lemma prefix_cons (c x : ascii) (s1 s2 : string) :
  prefix (String c s1) (String x s2) = Ascii.eqb c x && prefix s1 s2.
Proof.
  simpl. destruct (ascii_dec c x) as [-> | Hne].
  - rewrite Ascii.eqb_refl. reflexivity.
  - apply Ascii.eqb_neq in Hne. rewrite Hne. reflexivity.
Qed.

Lemma newlines_single_cons (c : ascii) (r : string) :
  newlines_single (String c r)
  = if Ascii.eqb c newline then
      match r with
      | EmptyString => false
      | String d _ => negb (Ascii.eqb d newline) && newlines_single r
      end
    else newlines_single r.
Proof. reflexivity. Qed.

(** A block whose newlines are single ends at the separator written
    after it. *)
Lemma split_block_first (a b : string) :
  newlines_single a = true ->
  forall cur,
    PyStr.split_from block_sep 0 cur (a ++ block_sep ++ b)
    = (cur ++ a)%string :: PyStr.split_from block_sep 0 EmptyString b.
Proof.
  change block_sep with (String newline (String newline (String newline EmptyString))).
  induction a as [| x a IH]; intros Hok cur.
  - simpl append. rewrite split_from_cons, !prefix_cons, !Ascii.eqb_refl.
    rewrite append_nil_r. simpl andb.
    destruct b; reflexivity.
  - rewrite newlines_single_cons in Hok.
    simpl append. rewrite split_from_cons, prefix_cons.
    assert (H : Ascii.eqb newline x
                && prefix (String newline (String newline EmptyString))
                     (a ++ String newline (String newline (String newline b)))
                = false
                /\ newlines_single a = true).
    { destruct (Ascii.eqb x newline) eqn:E.
      - destruct a as [| d a]; [discriminate Hok |].
        apply andb_prop in Hok. destruct Hok as [Hd Ha].
        split; [| exact Ha].
        simpl append. rewrite prefix_cons.
        apply negb_true_iff in Hd. rewrite (Ascii.eqb_sym newline d), Hd.
        rewrite andb_false_r. reflexivity.
      - split; [| exact Hok]. rewrite (Ascii.eqb_sym newline x), E. reflexivity. }
    destruct H as [Hp Ha]. rewrite Hp.
    rewrite (IH Ha), append_assoc. reflexivity.
Qed.

Lemma export_cons (g : string) (gs : list string) :
  Sample.export (g :: gs) = (g ++ block_sep ++ Sample.export gs)%string.
Proof.
  unfold Sample.export. destruct gs as [| g' gs].
  - cbn [map String.concat]. rewrite (append_nil_r block_sep). reflexivity.
  - cbn [map]. rewrite concat_cons by discriminate.
    rewrite append_assoc. reflexivity.
Qed.

Lemma split_export (games : list string) :
  Forall (fun g => newlines_single g = true) games ->
  PyStr.split block_sep (Sample.export games) = games ++ [EmptyString].
Proof.
  unfold PyStr.split. induction 1 as [| g gs Hg _ IH]; [reflexivity |].
  rewrite export_cons, (split_block_first g _ Hg), IH. reflexivity.
Qed.

Lemma game_blocks_export (games : list string) :
  Forall (fun g => newlines_single g = true) games ->
  game_blocks (Sample.export games) = games.
Proof.
  intro H. unfold game_blocks. rewrite (split_export games H).
  apply removelast_last.
Qed.

Lemma newlines_single_app (t r : string) :
  PyStr.mem newline t = false ->
  newlines_single (t ++ r) = newlines_single r.
Proof.
  induction t as [| c t IH]; intro H; [reflexivity |].
  rewrite mem_cons in H. apply orb_false_elim in H. destruct H as [Hc Ht].
  simpl append. rewrite newlines_single_cons, (Ascii.eqb_sym c newline), Hc.
  apply IH. exact Ht.
Qed.

Lemma tag_line_no_newline (kv : string * string) :
  clean_field kv -> PyStr.mem newline (tag_line kv) = false.
Proof.
  intros [_ [_ [Hk [Hv _]]]]. unfold tag_line. rewrite tag_shape.
  rewrite mem_cons, mem_app, mem_app, Hk, mem_cons, mem_cons, mem_app, Hv.
  reflexivity.
Qed.

Lemma tag_line_head (kv : string * string) :
  exists r, tag_line kv = String open_bracket r.
Proof. unfold tag_line. rewrite tag_shape. eexists. reflexivity. Qed.

Lemma concat_lines_cons (t : string) (lines : list string) :
  lines <> [] ->
  String.concat PyStr.nl (t :: lines)
  = (t ++ String newline (String.concat PyStr.nl lines))%string.
Proof. intro H. rewrite concat_cons by exact H. reflexivity. Qed.

Lemma render_game_newlines (rec : PyDict.t) :
  Forall clean_field rec -> newlines_single (render_game rec) = true.
Proof.
  unfold render_game. induction 1 as [| kv r Hkv Hr IH]; [reflexivity |].
  destruct r as [| kv' r].
  - cbn [map String.concat]. rewrite <- (append_nil_r (tag_line kv)).
    rewrite newlines_single_app by (apply tag_line_no_newline; exact Hkv).
    reflexivity.
  - change (map tag_line (kv :: kv' :: r))
      with (tag_line kv :: map tag_line (kv' :: r)).
    rewrite concat_lines_cons by discriminate.
    rewrite newlines_single_app by (apply tag_line_no_newline; exact Hkv).
    rewrite newlines_single_cons, Ascii.eqb_refl.
    destruct (String.concat PyStr.nl (map tag_line (kv' :: r))) as [| d rest] eqn:E.
    + exfalso. simpl map in E. destruct (tag_line_head kv') as [h Hh].
      destruct (map tag_line r); rewrite Hh in E; discriminate E.
    + rewrite IH, andb_true_r.
      simpl map in E. destruct (tag_line_head kv') as [h Hh].
      assert (d = open_bracket).
      { destruct (map tag_line r); rewrite Hh in E; injection E as -> _; reflexivity. }
      subst d. reflexivity.
Qed.

Lemma split_lines (lines : list string) :
  lines <> [] ->
  Forall (fun l => PyStr.mem newline l = false) lines ->
  PyStr.split PyStr.nl (String.concat PyStr.nl lines) = lines.
Proof.
  unfold PyStr.split. intros Hne H. induction H as [| t r Ht Hr IH]; [congruence |].
  destruct r as [| t' r].
  - simpl String.concat.
    etransitivity; [exact (split_char_none newline t EmptyString Ht) |]. reflexivity.
  - rewrite concat_lines_cons by discriminate.
    etransitivity;
      [exact (split_char_first newline t _ Ht EmptyString) |].
    simpl append. f_equal. apply IH. discriminate.
Qed.

Lemma set_append (k v : string) (d : PyDict.t) :
  ~ In k (PyDict.keys d) -> PyDict.set k v d = d ++ [(k, v)].
Proof.
  unfold PyDict.keys. induction d as [| [k' v'] r IH]; simpl; intro H; [reflexivity |].
  destruct (String.eqb k k') eqn:E.
  - apply String.eqb_eq in E. subst k'. exfalso. apply H. left. reflexivity.
  - f_equal. apply IH. intro Hin. apply H. right. exact Hin.
Qed.

Lemma parse_tag_lines (fs : PyDict.t) :
  Forall clean_field fs ->
  NoDup (PyDict.keys fs) ->
  forall d,
    (forall k, In k (PyDict.keys fs) -> ~ In k (PyDict.keys d)) ->
    parse_lines d (map tag_line fs) = Ok (d ++ fs).
Proof.
  induction 1 as [| [k v] r Hkv Hr IH]; intros Hnd d Hd; simpl.
  - rewrite app_nil_r. reflexivity.
  - inversion Hnd as [| ? ? Hk Hnd']; subst.
    destruct Hkv as [Hpk [Hpv [_ [_ [Hsk Hsv]]]]]. simpl in Hpk, Hpv, Hsk, Hsv.
    destruct (plain_inv k Hpk) as [Hko [Hkc Hkq]].
    destruct (plain_inv v Hpv) as [Hvo [Hvc Hvq]].
    unfold tag_line at 1. simpl fst. simpl snd.
    rewrite (parse_tag_line d k v Hko Hkc Hkq Hvo Hvc Hvq Hsk
               (strip_fixed_lstrip _ v Hsv) (strip_fixed_rstrip _ v Hsv)).
    cbn [bind].
    rewrite set_append by (apply Hd; left; reflexivity).
    rewrite (IH Hnd' (d ++ [(k, v)])).
    + rewrite <- app_assoc. reflexivity.
    + intros k0 Hk0 Hin. unfold PyDict.keys in Hin. rewrite map_app in Hin.
      apply in_app_or in Hin. destruct Hin as [Hin | [<- | []]].
      * apply (Hd k0); [right; exact Hk0 | exact Hin].
      * apply Hk. exact Hk0.
Qed.

Lemma parse_render_game (rec : PyDict.t) :
  clean_record rec -> parse_game (render_game rec) = Ok rec.
Proof.
  intros [Hnd Hclean]. unfold parse_game, render_game.
  destruct rec as [| kv r]; [reflexivity |].
  rewrite split_lines.
  - apply (parse_tag_lines _ Hclean Hnd []). intros k _ [].
  - discriminate.
  - apply Forall_map. revert Hclean. apply Forall_impl.
    intros a Ha. apply tag_line_no_newline. exact Ha.
Qed.

Lemma parse_render_games (recs : list PyDict.t) :
  Forall clean_record recs -> parse_games (map render_game recs) = Ok recs.
Proof.
  induction 1 as [| rec r Hrec _ IH]; simpl; [reflexivity |].
  rewrite (parse_render_game rec Hrec), IH. reflexivity.
Qed.

(** X10.  An export written from clean records, each block followed by the
    separator, parses back to the frame of exactly those records. *)
Theorem export_round_trip :
  forall recs : list PyDict.t,
    Forall clean_record recs ->
    pgn_to_dataframe (render_export recs) = Ok (DataFrame.of_records recs).
Proof.
  intros recs H. unfold pgn_to_dataframe, render_export.
  rewrite game_blocks_export.
  - rewrite (parse_render_games recs H). reflexivity.
  - apply Forall_map. revert H. apply Forall_impl.
    intros rec [_ Hc]. apply render_game_newlines. exact Hc.
Qed.

Lemma export_round_trip_witness :
  pgn_to_dataframe
    (render_export [[("Opening", "Italian Game"); ("Result", "1-0")];
                    [("Opening", "Ruy Lopez")]])
  = Ok (DataFrame.of_records [[("Opening", "Italian Game"); ("Result", "1-0")];
                              [("Opening", "Ruy Lopez")]]).
Proof.
  apply export_round_trip.
  repeat constructor; try (vm_compute; reflexivity); simpl; intuition discriminate.
Defined.
